(** * Tetris rules engine (src/Tetris.py): a shallow embedding and its properties

    The playfield, the pieces, the 7-bag, SRS rotation with wall kicks,
    the three-corner T-spin test and the lock/scoring sequence of
    [Tetris.py] are transcribed as Rocq functions.  Mutable objects become
    records that are passed and returned; methods that can raise (pop from
    an empty list) or loop ([while]) return [option]; integers are [Z].
    The frame update is transcribed with its times as exact rationals
    ([Q]), where the program computes in binary floating point. *)

From Stdlib Require Import ZArith QArith.QArith_base Lia Permutation Sorted.
From stdpp Require Import base list.

Local Open Scope Z_scope.

(** ** Constants *)

Definition COLS : Z := 10.
Definition ROWS : Z := 22.
Definition VISIBLE_ROWS : Z := 20.
Definition HIDDEN_ROWS : Z := ROWS - VISIBLE_ROWS.
Definition LOCK_RESETS_MAX : Z := 15.

(** [LOCK_DELAY = 0.5].  Times are exact rationals here; the program
    computes them in binary floating point. *)
Definition LOCK_DELAY : Q := (1 # 2)%Q.

(** ** Utility *)

(** [clamp], on integers: [max(lo, min(hi, v))]. *)
Definition clamp (v lo hi : Z) : Z := Z.max lo (Z.min hi v).


(** ** Piece kinds and shapes *)

(** The seven one-letter kind strings of [list('IJLOSTZ')]. *)
Inductive Kind := kI | kJ | kL | kO | kS | kT | kZ.

Definition Kind_eqb (a b : Kind) : bool :=
  match a, b with
  | kI, kI | kJ, kJ | kL, kL | kO, kO | kS, kS | kT, kT | kZ, kZ => true
  | _, _ => false
  end.

Lemma Kind_eqb_eq a b : Kind_eqb a b = true <-> a = b.
Proof. destruct a, b; simpl; split; congruence. Qed.

#[global] Instance Kind_eq_dec : EqDecision Kind.
Proof. solve_decision. Defined.

Definition all_kinds : list Kind := [kI; kJ; kL; kO; kS; kT; kZ].

Module ShapeData.
  (** ['X'] and ['.'] of the 4x4 character matrices. *)
Definition X := true.
Definition o := false.

Definition SHAPES (k : Kind) : list (list bool) :=
    match k with
    | kI => [ [o;o;o;o; X;X;X;X; o;o;o;o; o;o;o;o];
             [o;o;X;o; o;o;X;o; o;o;X;o; o;o;X;o];
             [o;o;o;o; o;o;o;o; X;X;X;X; o;o;o;o];
             [o;X;o;o; o;X;o;o; o;X;o;o; o;X;o;o] ]
    | kJ => [ [X;o;o;o; X;X;X;o; o;o;o;o; o;o;o;o];
             [o;X;X;o; o;X;o;o; o;X;o;o; o;o;o;o];
             [o;o;o;o; X;X;X;o; o;o;X;o; o;o;o;o];
             [o;X;o;o; o;X;o;o; X;X;o;o; o;o;o;o] ]
    | kL => [ [o;o;X;o; X;X;X;o; o;o;o;o; o;o;o;o];
             [o;X;o;o; o;X;o;o; o;X;X;o; o;o;o;o];
             [o;o;o;o; X;X;X;o; X;o;o;o; o;o;o;o];
             [X;X;o;o; o;X;o;o; o;X;o;o; o;o;o;o] ]
    | kO => [ [o;X;X;o; o;X;X;o; o;o;o;o; o;o;o;o];
             [o;X;X;o; o;X;X;o; o;o;o;o; o;o;o;o];
             [o;X;X;o; o;X;X;o; o;o;o;o; o;o;o;o];
             [o;X;X;o; o;X;X;o; o;o;o;o; o;o;o;o] ]
    | kS => [ [o;X;X;o; X;X;o;o; o;o;o;o; o;o;o;o];
             [o;X;o;o; o;X;X;o; o;o;X;o; o;o;o;o];
             [o;o;o;o; o;X;X;o; X;X;o;o; o;o;o;o];
             [X;o;o;o; X;X;o;o; o;X;o;o; o;o;o;o] ]
    | kT => [ [o;X;o;o; X;X;X;o; o;o;o;o; o;o;o;o];
             [o;X;o;o; o;X;X;o; o;X;o;o; o;o;o;o];
             [o;o;o;o; X;X;X;o; o;X;o;o; o;o;o;o];
             [o;X;o;o; X;X;o;o; o;X;o;o; o;o;o;o] ]
    | kZ => [ [X;X;o;o; o;X;X;o; o;o;o;o; o;o;o;o];
              [o;o;X;o; o;X;X;o; o;X;o;o; o;o;o;o];
              [o;o;o;o; X;X;o;o; o;X;X;o; o;o;o;o];
              [o;X;o;o; X;X;o;o; X;o;o;o; o;o;o;o] ]
    end.
End ShapeData.
Export ShapeData.

(** ** Wall-kick tables, keyed by (from, to) *)

Definition JLSTZ_KICKS (frm to : Z) : option (list (Z * Z)) :=
  match frm, to with
  | 0, 1 => Some [(0,0); (-1,0); (-1,-1); (0,2); (-1,2)]
  | 1, 0 => Some [(0,0); (1,0); (1,1); (0,-2); (1,-2)]
  | 1, 2 => Some [(0,0); (1,0); (1,1); (0,-2); (1,-2)]
  | 2, 1 => Some [(0,0); (-1,0); (-1,-1); (0,2); (-1,2)]
  | 2, 3 => Some [(0,0); (1,0); (1,-1); (0,2); (1,2)]
  | 3, 2 => Some [(0,0); (-1,0); (-1,1); (0,-2); (-1,-2)]
  | 3, 0 => Some [(0,0); (-1,0); (-1,1); (0,-2); (-1,-2)]
  | 0, 3 => Some [(0,0); (1,0); (1,-1); (0,2); (1,2)]
  | _, _ => None
  end.

Definition I_KICKS (frm to : Z) : option (list (Z * Z)) :=
  match frm, to with
  | 0, 1 => Some [(0,0); (-2,0); (1,0); (-2,-1); (1,2)]
  | 1, 0 => Some [(0,0); (2,0); (-1,0); (2,1); (-1,-2)]
  | 1, 2 => Some [(0,0); (-1,0); (2,0); (-1,2); (2,-1)]
  | 2, 1 => Some [(0,0); (1,0); (-2,0); (1,-2); (-2,1)]
  | 2, 3 => Some [(0,0); (2,0); (-1,0); (2,1); (-1,-2)]
  | 3, 2 => Some [(0,0); (-2,0); (1,0); (-2,-1); (1,2)]
  | 3, 0 => Some [(0,0); (1,0); (-2,0); (1,-2); (-2,1)]
  | 0, 3 => Some [(0,0); (-1,0); (2,0); (-1,2); (2,-1)]
  | _, _ => None
  end.

(** ** Scoring table *)

Inductive LineType :=
  | single | double | triple | tetris
  | tspin_mini_single | tspin_single | tspin_double | tspin_triple.

Definition SCORE_TABLE (t : LineType) : Z :=
  match t with
  | single => 100
  | double => 300
  | triple => 500
  | tetris => 800
  | tspin_mini_single => 200
  | tspin_single => 800
  | tspin_double => 1200
  | tspin_triple => 1600
  end.

(** ** Piece *)

(** [last_action]: ['move'], ['rotate'] or [None]. *)
Inductive Action := move | rotate.

Record Piece := mkPiece {
  kind : Kind;
  rot : Z;
  x : Z;
  y : Z;
  last_action : option Action;
  lock_resets : Z
}.

(** [Piece.__init__] *)
Definition new_Piece (k : Kind) : Piece :=
  {| kind := k; rot := 0; x := 3;
     y := (if Kind_eqb k kO then 0 - HIDDEN_ROWS else -1);
     last_action := None; lock_resets := 0 |}.

Definition set_rot (p : Piece) (r : Z) : Piece :=
  {| kind := kind p; rot := r; x := x p; y := y p;
     last_action := last_action p; lock_resets := lock_resets p |}.
Definition set_xy (p : Piece) (nx ny : Z) : Piece :=
  {| kind := kind p; rot := rot p; x := nx; y := ny;
     last_action := last_action p; lock_resets := lock_resets p |}.
Definition set_last_action (p : Piece) (a : option Action) : Piece :=
  {| kind := kind p; rot := rot p; x := x p; y := y p;
     last_action := a; lock_resets := lock_resets p |}.
Definition set_kind (p : Piece) (k : Kind) : Piece :=
  {| kind := k; rot := rot p; x := x p; y := y p;
     last_action := last_action p; lock_resets := lock_resets p |}.

(** Rotation states are 0..3 ([Piece.__init__] sets 0, every update is
    taken [% 4]); [SHAPES[kind][rot]] is read at such an index. *)
Definition valid_rot (p : Piece) : Prop := 0 <= rot p < 4.

(** [Piece.shape] *)
Definition shape (p : Piece) : list bool :=
  nth (Z.to_nat (rot p)) (SHAPES (kind p)) [].

(** [Piece.cells]: absolute (x, y) of the ['X'] entries, in index order. *)
Definition cells (p : Piece) : list (Z * Z) :=
  let s := shape p in
  foldr (fun i out =>
           if nth i s false
           then (x p + Z.of_nat (Nat.modulo i 4), y p + Z.of_nat (Nat.div i 4)) :: out
           else out)
        [] (seq 0 16).

Arguments cells : simpl never.

(** [Piece.clone] *)
Definition clone (p : Piece) : Piece :=
  {| kind := kind p; rot := rot p; x := x p; y := y p;
     last_action := last_action p; lock_resets := lock_resets p |}.

(** ** Board *)

(** A grid cell: ['.'] is [None], a locked cell holds the kind that locked it. *)
Abbreviation Cell := (option Kind).
Abbreviation Grid := (list (list Cell)).

Record Board := mkBoard { grid : Grid }.

Definition empty_row : list Cell := replicate (Z.to_nat COLS) None.

(** [Board.__init__] *)
Definition new_Board : Board :=
  {| grid := replicate (Z.to_nat ROWS) empty_row |}.

(** The grid is ROWS rows of COLS cells; [__init__] builds it so and [lock]
    and [clear_lines] keep it so.  [grid[y][x]] is only read after the bounds
    of [x] and [y] have been tested. *)
Definition wf_board (b : Board) : Prop :=
  length (grid b) = Z.to_nat ROWS /\
  Forall (fun r => length r = Z.to_nat COLS) (grid b).

(** [c != '.'] *)
Definition nonempty (c : Cell) : bool :=
  match c with None => false | Some _ => true end.

(** [self.grid[y][x]], read inside the bounds *)
Definition grid_at (g : Grid) (cx cy : Z) : Cell :=
  match g !! Z.to_nat cy with
  | Some r => match r !! Z.to_nat cx with Some c => c | None => None end
  | None => None
  end.

(** [Board.inside] *)
Definition inside (cx cy : Z) : bool :=
  (0 <=? cx) && (cx <? COLS) && (cy <? ROWS).

Fixpoint collide_cells (b : Board) (cs : list (Z * Z)) : bool :=
  match cs with
  | [] => false
  | (cx, cy) :: rest =>
      if cy <? 0 then collide_cells b rest
      else if negb (inside cx cy) || nonempty (grid_at (grid b) cx cy) then true
      else collide_cells b rest
  end.

(** [Board.collide] *)
Definition collide (b : Board) (p : Piece) : bool :=
  collide_cells b (cells p).

Arguments collide : simpl never.

Definition lock_cell (k : Kind) (g : Grid) (c : Z * Z) : Grid :=
  let '(cx, cy) := c in
  if (0 <=? cy) && (cy <? ROWS) && (0 <=? cx) && (cx <? COLS)
  then alter (fun r => <[Z.to_nat cx := Some k]> r) (Z.to_nat cy) g
  else g.

(** [Board.lock] *)
Definition lock (b : Board) (p : Piece) : Board :=
  {| grid := foldl (lock_cell (kind p)) (grid b) (cells p) |}.

(** [all(c != '.' for c in row)] *)
Definition row_full (r : list Cell) : bool := forallb nonempty r.

(** The row [self.grid[i]] for [i] in [range(ROWS)]. *)
Definition row_at (g : Grid) (i : nat) : list Cell :=
  match g !! i with Some r => r | None => [] end.

(** [[i for i in range(ROWS) if all(c != '.' for c in self.grid[i])]] *)
Definition full_rows (g : Grid) : list nat :=
  List.filter (fun i => row_full (row_at g i)) (seq 0 (Z.to_nat ROWS)).

(** One round of the loop: [del self.grid[i]; self.grid.insert(0, [...])]. *)
Definition clear_step (g : Grid) (i : nat) : Grid :=
  empty_row :: delete i g.

(** [Board.clear_lines]: the count, the cleared indices and the new board. *)
Definition clear_lines (b : Board) : Z * list nat * Board :=
  let full := full_rows (grid b) in
  (Z.of_nat (length full), full, {| grid := foldl clear_step (grid b) full |}).

(** [Board.topped_out] *)
Definition topped_out (b : Board) : bool :=
  existsb (fun cy => existsb (fun cx => nonempty (grid_at (grid b) (Z.of_nat cx) (Z.of_nat cy)))
                             (seq 0 (Z.to_nat COLS)))
          (seq 0 (Z.to_nat HIDDEN_ROWS)).

(** ** The 7-bag and the preview queue *)

(** [random.shuffle] is the only use of the random source.  Its outcomes
    are given by [shuffle_of]: the [n]-th call leaves the list
    [shuffle_of n]; [rng] counts the calls made so far. *)
Record Bag := mkBag { pool : list Kind; rng : nat }.

Record Queue := mkQueue { bag : Bag; items : list Kind; preview : nat }.

Section Random.
Variable shuffle_of : nat -> list Kind.

  (** [Bag.refill] *)
Definition refill (b : Bag) : Bag :=
    {| pool := pool b ++ shuffle_of (rng b); rng := Datatypes.S (rng b) |}.

  (** [Bag.__init__] *)
Definition new_Bag : Bag := refill {| pool := []; rng := 0 |}.

  (** [Bag.pop]; [None] is the IndexError of [pop(0)] on an empty list. *)
Definition Bag_pop (b : Bag) : option (Kind * Bag) :=
    let b1 := match pool b with [] => refill b | _ => b end in
    match pool b1 with
    | [] => None
    | k :: rest => Some (k, {| pool := rest; rng := rng b1 |})
    end.

  (** [n] pops in a row, with the kinds in the order returned. *)
Fixpoint Bag_pops (n : nat) (b : Bag) : option (list Kind * Bag) :=
    match n with
    | 0%nat => Some ([], b)
    | Datatypes.S m =>
        match Bag_pop b with
        | None => None
        | Some (k, b1) =>
            match Bag_pops m b1 with
            | None => None
            | Some (ks, b2) => Some (k :: ks, b2)
            end
        end
    end.

  (** [Queue.__init__]: [preview + 1] pops from a new bag. *)
Definition new_Queue (pv : nat) : option Queue :=
    match Bag_pops (pv + 1) new_Bag with
    | None => None
    | Some (ks, b) => Some {| bag := b; items := ks; preview := pv |}
    end.

  (** [Queue.next] *)
Definition Queue_next (q : Queue) : option (Kind * Queue) :=
    match items q with
    | [] => None
    | n :: rest =>
        match Bag_pop (bag q) with
        | None => None
        | Some (k, b) => Some (n, {| bag := b; items := rest ++ [k]; preview := preview q |})
        end
    end.

  (** [Queue.peek_list] *)
Definition peek_list (q : Queue) : list Kind := take (preview q) (items q).
End Random.

(** ** Rotation with wall kicks *)

(** The 180-degree loop: [x += dx; y += dy], test, [x -= dx; y -= dy]. *)
Fixpoint kick_180 (b : Board) (p : Piece) (kicks : list (Z * Z)) : Piece * bool :=
  match kicks with
  | [] => (p, false)
  | (dx, dy) :: rest =>
      let p1 := set_xy p (x p + dx) (y p + dy) in
      if negb (collide b p1) then (set_last_action p1 (Some rotate), true)
      else kick_180 b (set_xy p1 (x p1 - dx) (y p1 - dy)) rest
  end.

(** The quarter-turn loop: [x = oldx + dx; y = oldy + dy], test. *)
Fixpoint kick_srs (b : Board) (p : Piece) (oldx oldy : Z) (kicks : list (Z * Z)) : Piece * bool :=
  match kicks with
  | [] => (p, false)
  | (dx, dy) :: rest =>
      let p1 := set_xy p (oldx + dx) (oldy + dy) in
      if negb (collide b p1) then (set_last_action p1 (Some rotate), true)
      else kick_srs b p1 oldx oldy rest
  end.

(** [rotate_with_kick]: the piece after the call and the returned flag.
    [%] with a positive modulus is [Z.modulo]. *)
Definition rotate_with_kick (b : Board) (p : Piece) (dir : Z) : Piece * bool :=
  if Kind_eqb (kind p) kO && ((dir =? 1) || (dir =? -1)) then
    let p1 := set_rot p ((rot p + dir) mod 4) in
    if collide b p1 then (set_rot p1 ((rot p1 - dir) mod 4), false)
    else (set_last_action p1 (Some rotate), true)
  else if dir =? 2 then
    let target := (rot p + 2) mod 4 in
    let kicks := [(0,0); (1,0); (-1,0); (0,1); (0,-1); (2,0); (-2,0)] in
    let old_rot := rot p in
    let p1 := set_rot p target in
    let '(p2, ok) := kick_180 b p1 kicks in
    if ok then (p2, true) else (set_rot p2 old_rot, false)
  else
    let frm := rot p in
    let to := (rot p + dir) mod 4 in
    let kicks := if Kind_eqb (kind p) kI then I_KICKS else JLSTZ_KICKS in
    let oldx := x p in
    let oldy := y p in
    let oldrot := rot p in
    let p1 := set_rot p to in
    let '(p2, ok) := kick_srs b p1 oldx oldy (default [(0,0)] (kicks frm to)) in
    if ok then (p2, true) else (set_rot (set_xy p2 oldx oldy) oldrot, false).

(** ** T-spin test *)

(** [0 <= x < COLS and 0 <= y < ROWS] *)
Definition in_bounds (cx cy : Z) : bool :=
  (0 <=? cx) && (cx <? COLS) && (0 <=? cy) && (cy <? ROWS).

(** A corner counts when it is out of bounds or holds a locked cell. *)
Definition corner_occupied (b : Board) (c : Z * Z) : bool :=
  let '(cx, cy) := c in
  if negb (in_bounds cx cy) then true
  else if nonempty (grid_at (grid b) cx cy) then true
  else false.

(** The counting loops [for x, y in ...: ... += 1]. *)
Definition count_occupied (b : Board) (cs : list (Z * Z)) : Z :=
  foldl (fun occ c => if corner_occupied b c then occ + 1 else occ) 0 cs.

(** The [front] dictionary, indexed by [piece.rot]; [None] is its KeyError. *)
Definition front_corners (r cx cy : Z) : option (list (Z * Z)) :=
  match r with
  | 0 => Some [(cx-1, cy-1); (cx+1, cy-1)]
  | 1 => Some [(cx+1, cy-1); (cx+1, cy+1)]
  | 2 => Some [(cx-1, cy+1); (cx+1, cy+1)]
  | 3 => Some [(cx-1, cy-1); (cx-1, cy+1)]
  | _ => None
  end.

Definition corners (cx cy : Z) : list (Z * Z) :=
  [(cx-1, cy-1); (cx+1, cy-1); (cx-1, cy+1); (cx+1, cy+1)].

Definition is_rotate (a : option Action) : bool :=
  match a with Some rotate => true | _ => false end.

(** [is_tspin]: the pair [(is_tspin, is_mini)]. *)
Definition is_tspin (b : Board) (p : Piece) (lines : Z) (last : option Action)
  : option (bool * bool) :=
  if negb (Kind_eqb (kind p) kT) || negb (is_rotate last) || (lines <=? 0)
  then Some (false, false)
  else
    let cx := x p + 1 in
    let cy := y p + 1 in
    let occupied := count_occupied b (corners cx cy) in
    if occupied <? 3 then Some (false, false)
    else
      match front_corners (rot p) cx cy with
      | None => None
      | Some front =>
          let focc := count_occupied b front in
          let is_mini := (focc =? 1) && (lines =? 1) in
          Some (true, is_mini)
      end.

(** ** Game *)

(** Times ([dt], timers) are floats in the source; the methods embedded
    here only store the constants [0.0] and [0.15] in them, written as
    rationals.  [Game.update], which accumulates and compares float times,
    is not embedded. *)

Record Game := mkGame {
  board : Board;
  queue : Queue;
  hold : option Kind;
  hold_used : bool;
  cur : Piece;
  ghost_y : Z;
  score : Z;
  lines : Z;
  level : Z;
  combo : Z;
  b2b : bool;
  drop_distance_soft : Z;
  drop_distance_hard : Z;
  gravity_timer : Q;
  lock_timer : option Q;
  running : bool;
  paused : bool;
  game_over : bool;
  lock_reset_count : Z;
  last_move_time : Z;
  clear_anim : option (list nat * Q)
}.

Definition with_board (g : Game) (v : Board) : Game :=
  {| board := v; queue := queue g; hold := hold g; hold_used := hold_used g;
     cur := cur g; ghost_y := ghost_y g; score := score g; lines := lines g;
     level := level g; combo := combo g; b2b := b2b g; drop_distance_soft :=
     drop_distance_soft g; drop_distance_hard := drop_distance_hard g;
     gravity_timer := gravity_timer g; lock_timer := lock_timer g; running :=
     running g; paused := paused g; game_over := game_over g; lock_reset_count :=
     lock_reset_count g; last_move_time := last_move_time g; clear_anim :=
     clear_anim g |}.
Definition with_queue (g : Game) (v : Queue) : Game :=
  {| board := board g; queue := v; hold := hold g; hold_used := hold_used g;
     cur := cur g; ghost_y := ghost_y g; score := score g; lines := lines g;
     level := level g; combo := combo g; b2b := b2b g; drop_distance_soft :=
     drop_distance_soft g; drop_distance_hard := drop_distance_hard g;
     gravity_timer := gravity_timer g; lock_timer := lock_timer g; running :=
     running g; paused := paused g; game_over := game_over g; lock_reset_count :=
     lock_reset_count g; last_move_time := last_move_time g; clear_anim :=
     clear_anim g |}.
Definition with_hold (g : Game) (v : option Kind) : Game :=
  {| board := board g; queue := queue g; hold := v; hold_used := hold_used g;
     cur := cur g; ghost_y := ghost_y g; score := score g; lines := lines g;
     level := level g; combo := combo g; b2b := b2b g; drop_distance_soft :=
     drop_distance_soft g; drop_distance_hard := drop_distance_hard g;
     gravity_timer := gravity_timer g; lock_timer := lock_timer g; running :=
     running g; paused := paused g; game_over := game_over g; lock_reset_count :=
     lock_reset_count g; last_move_time := last_move_time g; clear_anim :=
     clear_anim g |}.
Definition with_hold_used (g : Game) (v : bool) : Game :=
  {| board := board g; queue := queue g; hold := hold g; hold_used := v; cur
     := cur g; ghost_y := ghost_y g; score := score g; lines := lines g; level :=
     level g; combo := combo g; b2b := b2b g; drop_distance_soft :=
     drop_distance_soft g; drop_distance_hard := drop_distance_hard g;
     gravity_timer := gravity_timer g; lock_timer := lock_timer g; running :=
     running g; paused := paused g; game_over := game_over g; lock_reset_count :=
     lock_reset_count g; last_move_time := last_move_time g; clear_anim :=
     clear_anim g |}.
Definition with_cur (g : Game) (v : Piece) : Game :=
  {| board := board g; queue := queue g; hold := hold g; hold_used :=
     hold_used g; cur := v; ghost_y := ghost_y g; score := score g; lines :=
     lines g; level := level g; combo := combo g; b2b := b2b g;
     drop_distance_soft := drop_distance_soft g; drop_distance_hard :=
     drop_distance_hard g; gravity_timer := gravity_timer g; lock_timer :=
     lock_timer g; running := running g; paused := paused g; game_over :=
     game_over g; lock_reset_count := lock_reset_count g; last_move_time :=
     last_move_time g; clear_anim := clear_anim g |}.
Definition with_ghost_y (g : Game) (v : Z) : Game :=
  {| board := board g; queue := queue g; hold := hold g; hold_used :=
     hold_used g; cur := cur g; ghost_y := v; score := score g; lines := lines g;
     level := level g; combo := combo g; b2b := b2b g; drop_distance_soft :=
     drop_distance_soft g; drop_distance_hard := drop_distance_hard g;
     gravity_timer := gravity_timer g; lock_timer := lock_timer g; running :=
     running g; paused := paused g; game_over := game_over g; lock_reset_count :=
     lock_reset_count g; last_move_time := last_move_time g; clear_anim :=
     clear_anim g |}.
Definition with_score (g : Game) (v : Z) : Game :=
  {| board := board g; queue := queue g; hold := hold g; hold_used :=
     hold_used g; cur := cur g; ghost_y := ghost_y g; score := v; lines := lines
     g; level := level g; combo := combo g; b2b := b2b g; drop_distance_soft :=
     drop_distance_soft g; drop_distance_hard := drop_distance_hard g;
     gravity_timer := gravity_timer g; lock_timer := lock_timer g; running :=
     running g; paused := paused g; game_over := game_over g; lock_reset_count :=
     lock_reset_count g; last_move_time := last_move_time g; clear_anim :=
     clear_anim g |}.
Definition with_lines (g : Game) (v : Z) : Game :=
  {| board := board g; queue := queue g; hold := hold g; hold_used :=
     hold_used g; cur := cur g; ghost_y := ghost_y g; score := score g; lines :=
     v; level := level g; combo := combo g; b2b := b2b g; drop_distance_soft :=
     drop_distance_soft g; drop_distance_hard := drop_distance_hard g;
     gravity_timer := gravity_timer g; lock_timer := lock_timer g; running :=
     running g; paused := paused g; game_over := game_over g; lock_reset_count :=
     lock_reset_count g; last_move_time := last_move_time g; clear_anim :=
     clear_anim g |}.
Definition with_level (g : Game) (v : Z) : Game :=
  {| board := board g; queue := queue g; hold := hold g; hold_used :=
     hold_used g; cur := cur g; ghost_y := ghost_y g; score := score g; lines :=
     lines g; level := v; combo := combo g; b2b := b2b g; drop_distance_soft :=
     drop_distance_soft g; drop_distance_hard := drop_distance_hard g;
     gravity_timer := gravity_timer g; lock_timer := lock_timer g; running :=
     running g; paused := paused g; game_over := game_over g; lock_reset_count :=
     lock_reset_count g; last_move_time := last_move_time g; clear_anim :=
     clear_anim g |}.
Definition with_combo (g : Game) (v : Z) : Game :=
  {| board := board g; queue := queue g; hold := hold g; hold_used :=
     hold_used g; cur := cur g; ghost_y := ghost_y g; score := score g; lines :=
     lines g; level := level g; combo := v; b2b := b2b g; drop_distance_soft :=
     drop_distance_soft g; drop_distance_hard := drop_distance_hard g;
     gravity_timer := gravity_timer g; lock_timer := lock_timer g; running :=
     running g; paused := paused g; game_over := game_over g; lock_reset_count :=
     lock_reset_count g; last_move_time := last_move_time g; clear_anim :=
     clear_anim g |}.
Definition with_b2b (g : Game) (v : bool) : Game :=
  {| board := board g; queue := queue g; hold := hold g; hold_used :=
     hold_used g; cur := cur g; ghost_y := ghost_y g; score := score g; lines :=
     lines g; level := level g; combo := combo g; b2b := v; drop_distance_soft :=
     drop_distance_soft g; drop_distance_hard := drop_distance_hard g;
     gravity_timer := gravity_timer g; lock_timer := lock_timer g; running :=
     running g; paused := paused g; game_over := game_over g; lock_reset_count :=
     lock_reset_count g; last_move_time := last_move_time g; clear_anim :=
     clear_anim g |}.
Definition with_drop_distance_soft (g : Game) (v : Z) : Game :=
  {| board := board g; queue := queue g; hold := hold g; hold_used :=
     hold_used g; cur := cur g; ghost_y := ghost_y g; score := score g; lines :=
     lines g; level := level g; combo := combo g; b2b := b2b g;
     drop_distance_soft := v; drop_distance_hard := drop_distance_hard g;
     gravity_timer := gravity_timer g; lock_timer := lock_timer g; running :=
     running g; paused := paused g; game_over := game_over g; lock_reset_count :=
     lock_reset_count g; last_move_time := last_move_time g; clear_anim :=
     clear_anim g |}.
Definition with_drop_distance_hard (g : Game) (v : Z) : Game :=
  {| board := board g; queue := queue g; hold := hold g; hold_used :=
     hold_used g; cur := cur g; ghost_y := ghost_y g; score := score g; lines :=
     lines g; level := level g; combo := combo g; b2b := b2b g;
     drop_distance_soft := drop_distance_soft g; drop_distance_hard := v;
     gravity_timer := gravity_timer g; lock_timer := lock_timer g; running :=
     running g; paused := paused g; game_over := game_over g; lock_reset_count :=
     lock_reset_count g; last_move_time := last_move_time g; clear_anim :=
     clear_anim g |}.
Definition with_lock_timer (g : Game) (v : option Q) : Game :=
  {| board := board g; queue := queue g; hold := hold g; hold_used :=
     hold_used g; cur := cur g; ghost_y := ghost_y g; score := score g; lines :=
     lines g; level := level g; combo := combo g; b2b := b2b g;
     drop_distance_soft := drop_distance_soft g; drop_distance_hard :=
     drop_distance_hard g; gravity_timer := gravity_timer g; lock_timer := v;
     running := running g; paused := paused g; game_over := game_over g;
     lock_reset_count := lock_reset_count g; last_move_time := last_move_time g;
     clear_anim := clear_anim g |}.
Definition with_game_over (g : Game) (v : bool) : Game :=
  {| board := board g; queue := queue g; hold := hold g; hold_used :=
     hold_used g; cur := cur g; ghost_y := ghost_y g; score := score g; lines :=
     lines g; level := level g; combo := combo g; b2b := b2b g;
     drop_distance_soft := drop_distance_soft g; drop_distance_hard :=
     drop_distance_hard g; gravity_timer := gravity_timer g; lock_timer :=
     lock_timer g; running := running g; paused := paused g; game_over := v;
     lock_reset_count := lock_reset_count g; last_move_time := last_move_time g;
     clear_anim := clear_anim g |}.
Definition with_lock_reset_count (g : Game) (v : Z) : Game :=
  {| board := board g; queue := queue g; hold := hold g; hold_used :=
     hold_used g; cur := cur g; ghost_y := ghost_y g; score := score g; lines :=
     lines g; level := level g; combo := combo g; b2b := b2b g;
     drop_distance_soft := drop_distance_soft g; drop_distance_hard :=
     drop_distance_hard g; gravity_timer := gravity_timer g; lock_timer :=
     lock_timer g; running := running g; paused := paused g; game_over :=
     game_over g; lock_reset_count := v; last_move_time := last_move_time g;
     clear_anim := clear_anim g |}.
Definition with_clear_anim (g : Game) (v : option (list nat * Q)) : Game :=
  {| board := board g; queue := queue g; hold := hold g; hold_used :=
     hold_used g; cur := cur g; ghost_y := ghost_y g; score := score g; lines :=
     lines g; level := level g; combo := combo g; b2b := b2b g;
     drop_distance_soft := drop_distance_soft g; drop_distance_hard :=
     drop_distance_hard g; gravity_timer := gravity_timer g; lock_timer :=
     lock_timer g; running := running g; paused := paused g; game_over :=
     game_over g; lock_reset_count := lock_reset_count g; last_move_time :=
     last_move_time g; clear_anim := v |}.


(** The [while True] loop of [compute_ghost_y]: [p.y += 1] until the probe
    collides.  A probe at or below row [ROWS] always collides, so
    [drop_fuel] rounds are enough; [None] is an exhausted bound. *)
Fixpoint ghost_loop (fuel : nat) (b : Board) (p : Piece) : option Z :=
  match fuel with
  | 0%nat => None
  | Datatypes.S f =>
      let p1 := set_xy p (x p) (y p + 1) in
      if collide b p1 then Some (y p1 - 1) else ghost_loop f b p1
  end.

Definition drop_fuel (p : Piece) : nat := (Z.to_nat (ROWS - y p) + 1)%nat.

(** [Game.compute_ghost_y] *)
Definition compute_ghost_y (g : Game) : option Z :=
  ghost_loop (drop_fuel (cur g)) (board g) (clone (cur g)).

Definition timer_running (g : Game) : bool :=
  match lock_timer g with Some _ => true | None => false end.

(** The shared reset: [lock_timer = 0.0; lock_reset_count += 1]. *)
Definition reset_lock_timer (g : Game) : Game :=
  with_lock_reset_count (with_lock_timer g (Some 0%Q)) (lock_reset_count g + 1).

(** [Game.try_move] *)
Definition try_move (g : Game) (dx dy : Z) : Game * bool :=
  let oldx := x (cur g) in
  let oldy := y (cur g) in
  let g1 := with_cur g (set_xy (cur g) (x (cur g) + dx) (y (cur g) + dy)) in
  if collide (board g1) (cur g1) then
    (with_cur g1 (set_xy (cur g1) oldx oldy), false)
  else
    let g2 := with_cur g1 (set_last_action (cur g1) (Some move)) in
    if (dy =? 0) && timer_running g2 then
      if lock_reset_count g2 <? LOCK_RESETS_MAX
      then (reset_lock_timer g2, true)
      else (g2, true)
    else (g2, true).

(** [Game.try_rotate] *)
Definition try_rotate (g : Game) (dir : Z) : option (Game * bool) :=
  let '(c1, ok) := rotate_with_kick (board g) (cur g) dir in
  let g1 := with_cur g c1 in
  if ok then
    let g2 := if timer_running g1 && (lock_reset_count g1 <? LOCK_RESETS_MAX)
              then reset_lock_timer g1 else g1 in
    gy ← compute_ghost_y g2;
    Some (with_ghost_y g2 gy, true)
  else Some (g1, false).

(** [Game.soft_drop] *)
Definition soft_drop (g : Game) : Game * bool :=
  let '(g1, ok) := try_move g 0 1 in
  if ok then (with_drop_distance_soft g1 (drop_distance_soft g1 + 1), true)
  else (g1, false).

(** [Game.on_ground] *)
Definition on_ground (g : Game) : bool :=
  let p := clone (cur g) in
  collide (board g) (set_xy p (x p) (y p + 1)).

(** The classification branch of [lock_piece]: [(line_type, is_b2b_type)]. *)
Definition classify (tspin mini : bool) (cleared : Z) : option LineType * bool :=
  if tspin then
    (if cleared =? 1 then Some (if mini then tspin_mini_single else tspin_single)
     else if cleared =? 2 then Some tspin_double
     else if cleared =? 3 then Some tspin_triple
     else None, true)
  else
    if cleared =? 1 then (Some single, false)
    else if cleared =? 2 then (Some double, false)
    else if cleared =? 3 then (Some triple, false)
    else if cleared =? 4 then (Some tetris, true)
    else (None, false).

(** [int(base * 1.5)]: the table values are multiples of 100, so the float
    product is exact and truncation gives [base * 3 / 2]. *)
Definition b2b_bonus (base : Z) : Z := Z.quot (base * 3) 2.

(** The scoring branch of [lock_piece]. *)
Definition apply_score (g : Game) (line_type : option LineType) (is_b2b_type : bool)
    (cleared : Z) (lines_idx : list nat) : Game :=
  match line_type with
  | Some lt =>
      let base := SCORE_TABLE lt in
      let base := if is_b2b_type && b2b g then b2b_bonus base else base in
      let g := with_b2b g is_b2b_type in
      let g := with_combo g (if 0 <=? combo g then combo g + 1 else 0) in
      let base := base + 50 * combo g in
      let g := with_score g (score g + base) in
      let g := with_lines g (lines g + cleared) in
      with_clear_anim g (Some (lines_idx, (3 # 20)%Q))
  | None => with_combo g (-1)
  end.

(** Steps of [lock_piece] up to, not including, the final [spawn]. *)
Definition lock_and_clear (g : Game) : Game * Z * list nat :=
  let g := with_board g (lock (board g) (cur g)) in
  let g := with_score g (score g + (drop_distance_soft g * 1 + drop_distance_hard g * 2)) in
  let g := with_drop_distance_soft g 0 in
  let g := with_drop_distance_hard g 0 in
  let '(cleared, lines_idx, b) := clear_lines (board g) in
  (with_board g b, cleared, lines_idx).

Section Play.
Variable shuffle_of : nat -> list Kind.

  (** [Game.spawn] *)
Definition spawn (g : Game) : option Game :=
    '(k, q) ← Queue_next shuffle_of (queue g);
    let g := with_cur (with_queue g q) (new_Piece k) in
    let g := with_hold_used g false in
    let g := if collide (board g) (cur g) then with_game_over g true else g in
    gy ← compute_ghost_y g;
    let g := with_ghost_y g gy in
    let g := with_lock_timer g None in
    Some (with_lock_reset_count g 0).

  (** [Game.lock_piece] *)
Definition lock_piece (g : Game) : option Game :=
    let '(g, cleared, lines_idx) := lock_and_clear g in
    '(tspin, mini) ← is_tspin (board g) (cur g) cleared (last_action (cur g));
    let '(line_type, is_b2b_type) := classify tspin mini cleared in
    let g := apply_score g line_type is_b2b_type cleared lines_idx in
    let g := with_level g (1 + lines g / 10) in
    spawn g.

  (** The [while self.try_move(0,1): dist += 1] loop of [hard_drop]. *)
Fixpoint hard_drop_loop (fuel : nat) (g : Game) (dist : Z) : option (Game * Z) :=
    match fuel with
    | 0%nat => None
    | Datatypes.S f =>
        let '(g1, ok) := try_move g 0 1 in
        if ok then hard_drop_loop f g1 (dist + 1) else Some (g1, dist)
    end.

  (** [hard_drop] up to, not including, the call of [lock_piece]: the state
      with the travelled distance credited, and the distance. *)
Definition hard_drop_fall (g : Game) : option (Game * Z) :=
    '(g1, dist) ← hard_drop_loop (drop_fuel (cur g)) g 0;
    Some (with_drop_distance_hard g1 (drop_distance_hard g1 + dist), dist).

  (** [Game.hard_drop] *)
Definition hard_drop (g : Game) : option Game :=
    '(g1, _) ← hard_drop_fall g;
    lock_piece g1.

  (** [Game.hold_swap] *)
Definition hold_swap (g : Game) : option Game :=
    if hold_used g then Some g
    else
      g1 ← match hold g with
           | None => spawn (with_hold g (Some (kind (cur g))))
           | Some h =>
               let g := with_hold (with_cur g (set_kind (cur g) h)) (Some (kind (cur g))) in
               let g := with_cur g (set_rot (cur g) 0) in
               let g := with_cur g (set_xy (cur g) 3 (-1)) in
               let g := if Kind_eqb (kind (cur g)) kO
                        then with_cur g (set_xy (cur g) (x (cur g)) (0 - HIDDEN_ROWS))
                        else g in
               Some (if collide (board g) (cur g) then with_game_over g true else g)
           end;
      let g1 := with_hold_used g1 true in
      gy ← compute_ghost_y g1;
      let g1 := with_ghost_y g1 gy in
      let g1 := with_lock_timer g1 None in
      Some (with_lock_reset_count g1 0).

  (** [Game.__init__] *)
Definition new_Game : option Game :=
    q ← new_Queue shuffle_of 2;
    '(k, q) ← Queue_next shuffle_of q;
    let g := {| board := new_Board; queue := q; hold := None; hold_used := false;
                cur := new_Piece k; ghost_y := 0; score := 0; lines := 0; level := 1;
                combo := -1; b2b := false; drop_distance_soft := 0;
                drop_distance_hard := 0; gravity_timer := 0%Q; lock_timer := None;
                running := true; paused := false; game_over := false;
                lock_reset_count := 0; last_move_time := 0; clear_anim := None |} in
    gy ← compute_ghost_y g;
    Some (with_ghost_y g gy).



(** [update], the lock-delay step: on the ground the timer starts at zero
    or takes [dt], and at [LOCK_DELAY] the piece is locked ([lock_piece],
    then [lock_timer = None]); off the ground the timer is dropped. *)
Definition tick_lock (g : Game) (dt : Q) : option Game :=
  if on_ground g then
    match lock_timer g with
    | None => Some (with_lock_timer g (Some 0%Q))
    | Some t =>
        let g := with_lock_timer g (Some (t + dt)%Q) in
        if Qle_bool LOCK_DELAY (t + dt) then
          g ← lock_piece g;
          Some (with_lock_timer g None)
        else Some g
    end
  else Some (with_lock_timer g None).

End Play.

(** * Vocabulary of the properties *)

  (** Indices, counted from [k], of the full rows of [rows]. *)
Fixpoint full_from (k : nat) (rows : Grid) : list nat :=
    match rows with
    | [] => []
    | r :: rs => if row_full r then k :: full_from (Datatypes.S k) rs
                 else full_from (Datatypes.S k) rs
    end.

(** The corners around the centre [(cx, cy)]; [y] grows downwards. *)
Definition top_left (cx cy : Z) : Z * Z := (cx - 1, cy - 1).
Definition top_right (cx cy : Z) : Z * Z := (cx + 1, cy - 1).
Definition bottom_left (cx cy : Z) : Z * Z := (cx - 1, cy + 1).
Definition bottom_right (cx cy : Z) : Z * Z := (cx + 1, cy + 1).

(** The two corners on the side that the point of the T faces:
    0 the top ones, 1 the right ones, 2 the bottom ones, 3 the left ones. *)
Definition facing_corners (r cx cy : Z) : list (Z * Z) :=
  if r =? 0 then [top_left cx cy; top_right cx cy]
  else if r =? 1 then [top_right cx cy; bottom_right cx cy]
  else if r =? 2 then [bottom_left cx cy; bottom_right cx cy]
  else if r =? 3 then [top_left cx cy; bottom_left cx cy]
  else [].

(** No row of the board is full: true of the empty board and of every
    board that [clear_lines] returns, so of the board at every lock. *)
Definition no_full_rows (b : Board) : Prop := full_rows (grid b) = [].

  (** A bag boundary: the pool is empty (the next pop refills it) or it is
      a refill that has not been popped from yet. *)
Definition at_boundary (shuffle_of : nat -> list Kind) (b : Bag) : Prop :=
    pool b = [] \/ exists m, pool b = shuffle_of m.

(** The intents that can reset the lock-delay timer. *)
Inductive Intent := Move (dx dy : Z) | Rotate (dir : Z).

Definition step (g : Game) (i : Intent) : option Game :=
  match i with
  | Move dx dy => Some (fst (try_move g dx dy))
  | Rotate dir => '(g', _) ← try_rotate g dir; Some g'
  end.

(** A step used one of the resets. *)
Definition was_reset (g g' : Game) : bool :=
  lock_reset_count g <? lock_reset_count g'.

(** The intents in order; the state reached and the number of resets used. *)
Fixpoint run (l : list Intent) (g : Game) : option (Game * Z) :=
  match l with
  | [] => Some (g, 0)
  | i :: rest =>
      g1 ← step g i;
      '(g2, n) ← run rest g1;
      Some (g2, (if was_reset g g1 then 1 else 0) + n)
  end.

(** The reading of C3 in which the pending hard-drop distance itself grows
    by 2 per cell travelled. *)
Definition credit_two_per_cell (g : Game) : Prop :=
  forall g1 m, hard_drop_fall g = Some (g1, m) ->
               drop_distance_hard g1 = drop_distance_hard g + 2 * m.

(** The ['X'] entries of a mask as (column, row) offsets, in index order. *)
Definition offsets_of (s : list bool) : list (Z * Z) :=
  foldr (fun i out =>
           if nth i s false
           then (Z.of_nat (Nat.modulo i 4), Z.of_nat (Nat.div i 4)) :: out
           else out)
        [] (seq 0 16).

Definition shift (dx dy : Z) (o : Z * Z) : Z * Z := (dx + fst o, dy + snd o).

(** The offsets that [rotate_with_kick] tries, in order. *)
Definition kick_candidates (p : Piece) (dir : Z) : list (Z * Z) :=
  if Kind_eqb (kind p) kO && ((dir =? 1) || (dir =? -1)) then [(0,0)]
  else if dir =? 2 then [(0,0); (1,0); (-1,0); (0,1); (0,-1); (2,0); (-2,0)]
  else default [(0,0)]
         ((if Kind_eqb (kind p) kI then I_KICKS else JLSTZ_KICKS)
            (rot p) ((rot p + dir) mod 4)).

(** The piece turned by [dir] and moved by an offset. *)
Definition turned (p : Piece) (dir dx dy : Z) : Piece :=
  set_xy (set_rot p ((rot p + dir) mod 4)) (x p + dx) (y p + dy).

(** [n] presses of the soft-drop key; the state and the cells travelled. *)
Fixpoint soft_drops (n : nat) (g : Game) : Game * Z :=
  match n with
  | 0%nat => (g, 0)
  | Datatypes.S m =>
      let '(g1, ok) := soft_drop g in
      let '(g2, k) := soft_drops m g1 in
      (g2, (if ok then 1 else 0) + k)
  end.

(** The statements of the swap branch of [hold_swap], one function each. *)
Definition swap_kind (g : Game) (h : Kind) : Game :=
  with_hold (with_cur g (set_kind (cur g) h)) (Some (kind (cur g))).
Definition reset_rot (g : Game) : Game := with_cur g (set_rot (cur g) 0).
Definition to_anchor (g : Game) : Game := with_cur g (set_xy (cur g) 3 (-1)).
Definition lift_O (g : Game) : Game :=
  if Kind_eqb (kind (cur g)) kO
  then with_cur g (set_xy (cur g) (x (cur g)) (0 - HIDDEN_ROWS)) else g.
Definition check_over (g : Game) : Game :=
  if collide (board g) (cur g) then with_game_over g true else g.
Definition finish_hold (g : Game) (gy : Z) : Game :=
  with_lock_reset_count (with_lock_timer (with_ghost_y (with_hold_used g true) gy) None) 0.

(** The piece that the swap branch builds from [c] and the held kind. *)
Definition held_piece (c : Piece) (h : Kind) : Piece :=
  {| kind := h; rot := 0; x := 3; y := y (new_Piece h);
     last_action := last_action c; lock_resets := lock_resets c |}.

(** The last statements of [spawn]: ghost row, timer and counter. *)
Definition finish_spawn (g : Game) (gy : Z) : Game :=
  with_lock_reset_count (with_lock_timer (with_ghost_y g gy) None) 0.

(** [n] calls of [Queue.next] in a row, with the kinds in the order returned. *)
Fixpoint Queue_nexts (shuffle_of : nat -> list Kind) (n : nat) (q : Queue)
  : option (list Kind * Queue) :=
  match n with
  | 0%nat => Some ([], q)
  | Datatypes.S m =>
      match Queue_next shuffle_of q with
      | None => None
      | Some (k, q1) =>
          match Queue_nexts shuffle_of m q1 with
          | None => None
          | Some (ks, q2) => Some (k :: ks, q2)
          end
      end
  end.



(** The reading of C5 for down moves: with a timer running and fewer than
    15 resets used, an accepted down move that puts the piece on the
    ground leaves the timer at zero. *)
Definition down_move_resets_timer (g : Game) : Prop :=
  timer_running g = true -> lock_reset_count g < LOCK_RESETS_MAX ->
  forall g', try_move g 0 1 = (g', true) -> on_ground g' = true ->
  lock_timer g' = Some 0%Q.

(** * Sample states *)

(** A random source whose [n]-th shuffle reverses the list when [n] is odd. *)
Definition alternating_shuffle (n : nat) : list Kind :=
  if Nat.even n then all_kinds else rev all_kinds.

(** The queue of a new game whose first shuffle is [all_kinds]. *)
Definition sample_queue : Queue :=
  {| bag := {| pool := [kS; kT; kZ]; rng := 1 |}; items := [kJ; kL; kO]; preview := 2 |}.

(** A session on board [b] with active piece [p], lock-delay timer [t],
    [n] resets used and back-to-back flag [bb]; a fresh session otherwise. *)
Definition session (b : Board) (p : Piece) (t : option Q) (n : Z) (bb : bool) : Game :=
  {| board := b; queue := sample_queue; hold := None; hold_used := false;
     cur := p; ghost_y := 0; score := 0; lines := 0; level := 1;
     combo := -1; b2b := bb; drop_distance_soft := 0;
     drop_distance_hard := 0; gravity_timer := 0%Q; lock_timer := t;
     running := true; paused := false; game_over := false;
     lock_reset_count := n; last_move_time := 0; clear_anim := None |}.

Definition T_at (px py r : Z) (a : option Action) : Piece :=
  {| kind := kT; rot := r; x := px; y := py; last_action := a; lock_resets := 0 |}.

(** An empty playfield whose bottom row is filled with I cells. *)
Definition bottom_full : Board :=
  {| grid := replicate 21 empty_row ++ [replicate 10 (Some kI)] |}.

(** A board on which every cell is locked: no move or rotation fits. *)
Definition filled_board : Board :=
  {| grid := replicate 22 (replicate 10 (Some kI)) |}.

(** A T piece lying on the floor of an empty board, timer at a quarter second. *)
Definition grounded_T : Game :=
  session new_Board (T_at 3 20 0 (Some move)) (Some (1 # 4)%Q) 0 false.

(** A T slot on the floor: the bottom row lacks columns 3 to 5, and one
    cell hangs over the left shoulder of the slot. *)
Definition tslot_board : Board :=
  {| grid := replicate 19 empty_row
             ++ [ <[3%nat := Some kS]> empty_row;
                  empty_row;
                  [Some kS; Some kS; Some kS; None; None; None;
                   Some kS; Some kS; Some kS; Some kS] ] |}.

(** A T piece rotated into the slot, point up. *)
Definition tslot_state : Game :=
  session tslot_board (T_at 3 20 0 (Some rotate)) (Some 0%Q) 1 false.

(** A well four rows deep in column 9, and an upright I piece in it. *)
Definition well_board : Board :=
  {| grid := replicate 18 empty_row
             ++ replicate 4 (replicate 9 (Some kJ) ++ [None]) |}.

Definition well_state : Game :=
  session well_board
          {| kind := kI; rot := 1; x := 7; y := 18;
             last_action := Some move; lock_resets := 0 |}
          None 0 true.

(** A T piece at its spawn position over an empty board. *)
Definition spawned_T : Game :=
  session new_Board (new_Piece kT) None 0 false.

(** The T of [spawned_T] after its fall of 21 cells. *)
Definition fallen_T : Game :=
  with_drop_distance_hard
    (session new_Board
       {| kind := kT; rot := 0; x := 3; y := 20;
          last_action := Some move; lock_resets := 0 |}
       None 0 false)
    21.

(** A T piece against the left wall, pointing right: turning it clockwise
    needs the kick one column to the right. *)
Definition walled_T : Piece := T_at (-1) 5 1 (Some move).

(** The T of [tslot_state] moved, not rotated, into the slot, with
    back-to-back set. *)
Definition plain_single_state : Game :=
  session tslot_board (T_at 3 20 0 (Some move)) None 0 true.

(** A T piece one row above the floor of an empty board, timer at a
    quarter second. *)
Definition landing_T : Game :=
  session new_Board (T_at 3 19 0 (Some rotate)) (Some (1 # 4)%Q) 0 false.



(** * Proof steps *)

(** Splits the conjunctions that are written out in the goal. *)
Ltac conjs := repeat match goal with |- _ /\ _ => split end.

(** * Properties *)

(** ** Line clearing *)

Module ClearLines.

Lemma row_at_app_r (A B : Grid) (j : nat) :
    row_at (A ++ B) (length A + j) = row_at B j.
  Proof.
    unfold row_at. rewrite lookup_app_r by lia.
    replace (length A + j - length A)%nat with j by lia. reflexivity.
  Qed.

Lemma filter_seq_full_from (B A : Grid) :
    List.filter (fun i => row_full (row_at (A ++ B) i)) (seq (length A) (length B))
    = full_from (length A) B.
  Proof.
    revert A. induction B as [|r B IH]; intros A; simpl; [reflexivity|].
    pose proof (row_at_app_r A (r :: B) 0) as H0.
    rewrite Nat.add_0_r in H0. rewrite H0. simpl.
    specialize (IH (A ++ [r])).
    rewrite <- app_assoc in IH. simpl in IH.
    rewrite length_app in IH. simpl in IH.
    rewrite Nat.add_1_r in IH. rewrite IH.
    reflexivity.
  Qed.

Lemma full_rows_full_from (g : Grid) :
    length g = Z.to_nat ROWS -> full_rows g = full_from 0 g.
  Proof.
    intros Hl. unfold full_rows. rewrite <- Hl.
    exact (filter_seq_full_from g []).
  Qed.

Lemma delete_middle (A : Grid) (r : list Cell) (B : Grid) :
    delete (length A) (A ++ r :: B) = A ++ B.
  Proof. induction A as [|a A IH]; simpl; [reflexivity|]. now f_equal. Qed.

Lemma replicate_snoc_cons (n : nat) (e : list Cell) (A : Grid) :
    replicate n e ++ e :: A = replicate (Datatypes.S n) e ++ A.
  Proof. induction n as [|n IH]; simpl; [reflexivity|]. now f_equal. Qed.

  (** The loop, started on [A ++ B] with the indices of the full rows of
      [B]: every full row of [B] goes, an empty row arrives on top for each,
      and [A] and the other rows of [B] stay in order. *)
Lemma clear_loop (B A : Grid) :
    foldl clear_step (A ++ B) (full_from (length A) B)
    = replicate (length (full_from (length A) B)) empty_row
      ++ A ++ List.filter (fun r => negb (row_full r)) B.
  Proof.
    revert A. induction B as [|r B IH]; intros A; simpl.
    - reflexivity.
    - destruct (row_full r) eqn:Hr; simpl.
      + unfold clear_step at 2. rewrite delete_middle.
        specialize (IH (empty_row :: A)). simpl in IH. rewrite IH.
        rewrite replicate_snoc_cons. reflexivity.
      + specialize (IH (A ++ [r])).
        rewrite <- !app_assoc in IH. simpl in IH.
        rewrite length_app in IH. simpl in IH.
        rewrite Nat.add_1_r in IH. exact IH.
  Qed.

Lemma full_from_spec (B : Grid) (k i : nat) :
    i ∈ full_from k B <->
    exists j r, i = (k + j)%nat /\ B !! j = Some r /\ row_full r = true.
  Proof.
    revert k. induction B as [|r0 B IH]; intros k; simpl.
    - split; [intros H; inversion H | intros (j & r & _ & H & _); discriminate].
    - destruct (row_full r0) eqn:Hr.
      + rewrite elem_of_cons, IH. split.
        * intros [-> | (j & r & -> & Hj & Hf)].
          -- exists 0%nat, r0. split; [lia|]. split; [reflexivity | exact Hr].
          -- exists (Datatypes.S j), r. split; [lia|]. split; assumption.
        * intros (j & r & -> & Hj & Hf). destruct j as [|j].
          -- left. lia.
          -- right. exists j, r. split; [lia|]. split; assumption.
      + rewrite IH. split.
        * intros (j & r & -> & Hj & Hf).
          exists (Datatypes.S j), r. split; [lia|]. split; assumption.
        * intros (j & r & -> & Hj & Hf). destruct j as [|j].
          -- simpl in Hj. injection Hj as <-. congruence.
          -- exists j, r. split; [lia|]. split; assumption.
  Qed.

Lemma full_from_sorted (B : Grid) (k : nat) :
    StronglySorted lt (full_from k B).
  Proof.
    revert k. induction B as [|r B IH]; intros k; simpl; [constructor|].
    destruct (row_full r); [|apply IH].
    constructor; [apply IH|].
    apply Forall_forall. intros i Hi.
    apply full_from_spec in Hi. destruct Hi as (j & _ & -> & _). lia.
  Qed.

  (** A row of [COLS] cells is full exactly when every column holds a kind. *)
Lemma row_full_spec (r : list Cell) :
    row_full r = true <->
    forall cx : nat, (cx < length r)%nat -> exists k, r !! cx = Some (Some k).
  Proof.
    unfold row_full. induction r as [|c r IH]; simpl.
    - split; [intros _ cx H; lia | reflexivity].
    - rewrite andb_true_iff, IH. split.
      + intros [Hc Hr] [|cx] Hlt; simpl.
        * destruct c as [k|]; [exists k; reflexivity | discriminate].
        * apply Hr. lia.
      + intros H. split.
        * destruct (H 0%nat ltac:(lia)) as [k Hk]. simpl in Hk.
          injection Hk as ->. reflexivity.
        * intros cx Hlt. apply (H (Datatypes.S cx)). lia.
  Qed.

End ClearLines.

Lemma empty_row_length : length empty_row = Z.to_nat COLS.
Proof. reflexivity. Qed.

Lemma new_Board_wf : wf_board new_Board.
Proof.
  split; [reflexivity|].
  apply Forall_forall. intros r Hr.
  unfold new_Board in Hr. cbn [grid] in Hr.
  apply elem_of_replicate in Hr. destruct Hr as [-> _]. reflexivity.
Qed.

Lemma full_from_filter_length (B : Grid) (k : nat) :
  (length (full_from k B)
   + length (List.filter (fun r => negb (row_full r)) B) = length B)%nat.
Proof.
  revert k. induction B as [|r B IH]; intros k; simpl; [reflexivity|].
  destruct (row_full r); simpl; specialize (IH (Datatypes.S k)); lia.
Qed.

(** On a well-formed board, the test of [clear_lines] on row [i] says that
    each of the [COLS] cells of the row is non-empty. *)
Lemma row_full_cells (b : Board) (i : nat) :
  wf_board b -> (i < Z.to_nat ROWS)%nat ->
  row_full (row_at (grid b) i) = true <->
  forall cx, 0 <= cx < COLS -> nonempty (grid_at (grid b) cx (Z.of_nat i)) = true.
Proof.
  intros [Hlen Hrows] Hi.
  unfold row_at, grid_at. rewrite Nat2Z.id.
  destruct (grid b !! i) as [r|] eqn:Hr.
  2:{ apply lookup_ge_None in Hr. lia. }
  assert (Hlr : length r = Z.to_nat COLS).
  { rewrite Forall_forall in Hrows. apply Hrows.
    eapply list_elem_of_lookup_2. exact Hr. }
  rewrite ClearLines.row_full_spec. split.
  - intros H cx Hcx.
    destruct (H (Z.to_nat cx)) as [k Hk]; [rewrite Hlr; unfold COLS in *; lia|].
    rewrite Hk. reflexivity.
  - intros H cx Hcx.
    specialize (H (Z.of_nat cx)). rewrite Nat2Z.id in H.
    destruct (r !! cx) as [[k|]|] eqn:Hc.
    + exists k. reflexivity.
    + discriminate H. rewrite Hlr in Hcx. unfold COLS in *. lia.
    + apply lookup_ge_None in Hc. lia.
Qed.

(** C6.  On every ROWS x COLS board, [clear_lines] returns the indices of
    exactly the rows whose COLS cells are all non-empty (in ascending
    order, as indices of the board before the call) together with their
    number, and the new grid is that many empty rows on top of the
    remaining rows in their original order; the board keeps its size. *)
Theorem clear_lines_removes_full_rows (b : Board) :
  wf_board b ->
  forall count idx b', clear_lines b = (count, idx, b') ->
    (forall i : nat, i ∈ idx <->
        (i < Z.to_nat ROWS)%nat /\
        forall cx, 0 <= cx < COLS ->
                   nonempty (grid_at (grid b) cx (Z.of_nat i)) = true)
    /\ StronglySorted lt idx
    /\ count = Z.of_nat (length idx)
    /\ grid b' = replicate (length idx) empty_row
                 ++ List.filter (fun r => negb (row_full r)) (grid b)
    /\ (forall i : nat, (i < Z.to_nat ROWS)%nat ->
          (row_full (row_at (grid b) i) = false <-> i ∉ idx))
    /\ wf_board b'.
Proof.
  intros Hwf count idx b' Hcl.
  pose proof Hwf as [Hlen Hrows].
  unfold clear_lines in Hcl. injection Hcl as <- <- <-.
  assert (Hmem : forall i : nat, i ∈ full_rows (grid b) <->
                   (i < Z.to_nat ROWS)%nat /\ row_full (row_at (grid b) i) = true).
  { intros i. unfold full_rows.
    rewrite list_elem_of_In, List.filter_In, in_seq. simpl. split.
    - intros [[_ H1] H2]. split; [lia | exact H2].
    - intros [H1 H2]. split; [lia | exact H2]. }
  assert (Hloop : foldl clear_step (grid b) (full_rows (grid b))
                  = replicate (length (full_rows (grid b))) empty_row
                    ++ List.filter (fun r => negb (row_full r)) (grid b)).
  { rewrite ClearLines.full_rows_full_from by exact Hlen.
    exact (ClearLines.clear_loop (grid b) []). }
  split; [|split; [|split; [|split; [|split]]]].
  - intros i. rewrite Hmem. split.
    + intros [Hi Hf]. split; [exact Hi|]. now apply row_full_cells.
    + intros [Hi Hf]. split; [exact Hi|]. now apply row_full_cells.
  - rewrite ClearLines.full_rows_full_from by exact Hlen.
    apply ClearLines.full_from_sorted.
  - reflexivity.
  - exact Hloop.
  - intros i Hi. rewrite Hmem. split.
    + intros Hf [_ Ht]. congruence.
    + intros Hn. destruct (row_full (row_at (grid b) i)) eqn:E; [|reflexivity].
      exfalso. apply Hn. split; [exact Hi | reflexivity].
  - unfold wf_board. cbn [grid]. rewrite Hloop. split.
    + rewrite length_app, length_replicate.
      rewrite ClearLines.full_rows_full_from by exact Hlen.
      rewrite full_from_filter_length. exact Hlen.
    + apply Forall_app. split.
      * apply Forall_forall. intros r Hr.
        apply elem_of_replicate in Hr. destruct Hr as [-> _]. reflexivity.
      * rewrite Forall_forall in Hrows |- *. intros r Hr.
        apply Hrows. apply list_elem_of_In in Hr.
        apply List.filter_In in Hr. apply list_elem_of_In. tauto.
Qed.

Lemma bottom_full_wf : wf_board bottom_full.
Proof. split; [reflexivity | repeat constructor]. Qed.

Lemma clear_lines_removes_full_rows_witness :
  wf_board bottom_full /\
  clear_lines bottom_full = (1, [21%nat], new_Board) /\
  grid new_Board
  = replicate 1 empty_row
    ++ List.filter (fun r => negb (row_full r)) (grid bottom_full).
Proof.
  split; [exact bottom_full_wf|]. split; [reflexivity|].
  destruct (clear_lines_removes_full_rows bottom_full bottom_full_wf
              1 [21%nat] new_Board eq_refl) as (_ & _ & _ & H & _).
  exact H.
Defined.

(** ** The 7-bag *)

Section BagProperties.
Variable shuffle_of : nat -> list Kind.

  (** [random.shuffle] permutes the list it is given. *)
Hypothesis shuffle_perm : forall n, Permutation all_kinds (shuffle_of n).

Lemma shuffle_length n : length (shuffle_of n) = 7%nat.
  Proof. rewrite <- (Permutation_length (shuffle_perm n)). reflexivity. Qed.

  (** Popping as many kinds as a non-empty prefix of the pool holds returns
      that prefix and never refills. *)
Lemma Bag_pops_prefix (l rest : list Kind) (r : nat) :
    Bag_pops shuffle_of (length l) {| pool := l ++ rest; rng := r |}
    = Some (l, {| pool := rest; rng := r |}).
  Proof.
    induction l as [|k l IH]; simpl; [reflexivity|].
    unfold Bag_pop. simpl. rewrite IH. reflexivity.
  Qed.

Lemma Bag_pops_fresh (b : Bag) (m : nat) :
    pool b = shuffle_of m ->
    Bag_pops shuffle_of 7 b = Some (shuffle_of m, {| pool := []; rng := rng b |}).
  Proof.
    intros Hp. destruct b as [p r]. simpl in Hp. subst p. simpl rng.
    pose proof (Bag_pops_prefix (shuffle_of m) [] r) as H.
    rewrite shuffle_length, app_nil_r in H. exact H.
  Qed.

Lemma Bag_pops_empty (b : Bag) :
    pool b = [] ->
    Bag_pops shuffle_of 7 b
    = Some (shuffle_of (rng b), {| pool := []; rng := Datatypes.S (rng b) |}).
  Proof.
    intros Hp. destruct b as [p r]. simpl in Hp. subst p. simpl rng.
    pose proof (Bag_pops_fresh (refill shuffle_of {| pool := []; rng := r |}) r
                  eq_refl) as H.
    pose proof (shuffle_length r) as Hl.
    change (Bag_pops shuffle_of 7 {| pool := []; rng := r |}) with
      (match Bag_pop shuffle_of {| pool := []; rng := r |} with
       | None => None
       | Some (k, b1) =>
           match Bag_pops shuffle_of 6 b1 with
           | None => None
           | Some (ks, b2) => Some (k :: ks, b2)
           end
       end).
    change (Bag_pops shuffle_of 7 (refill shuffle_of {| pool := []; rng := r |})) with
      (match Bag_pop shuffle_of (refill shuffle_of {| pool := []; rng := r |}) with
       | None => None
       | Some (k, b1) =>
           match Bag_pops shuffle_of 6 b1 with
           | None => None
           | Some (ks, b2) => Some (k :: ks, b2)
           end
       end) in H.
    unfold Bag_pop in *. unfold refill in *. simpl pool in *. simpl rng in *.
    destruct (shuffle_of r) as [|k l] eqn:E; [discriminate Hl|].
    simpl in *. exact H.
  Qed.

Lemma Bag_pops_add (a c : nat) (b : Bag) :
    Bag_pops shuffle_of (a + c) b =
    match Bag_pops shuffle_of a b with
    | None => None
    | Some (ks, b1) =>
        match Bag_pops shuffle_of c b1 with
        | None => None
        | Some (ks', b2) => Some (ks ++ ks', b2)
        end
    end.
  Proof.
    revert b. induction a as [|a IH]; intros b; simpl.
    - destruct (Bag_pops shuffle_of c b) as [[ks b2]|]; reflexivity.
    - destruct (Bag_pop shuffle_of b) as [[k b1]|]; [|reflexivity].
      rewrite IH. destruct (Bag_pops shuffle_of a b1) as [[ks b2]|]; [|reflexivity].
      destruct (Bag_pops shuffle_of c b2) as [[ks' b3]|]; reflexivity.
  Qed.

  (** Seven pops from a boundary return one whole shuffle and end at a
      boundary. *)
Lemma Bag_pops_boundary (b : Bag) :
    at_boundary shuffle_of b ->
    exists m b', Bag_pops shuffle_of 7 b = Some (shuffle_of m, b') /\ at_boundary shuffle_of b'.
  Proof.
    intros [He | [m Hm]].
    - eexists _, _. split; [apply Bag_pops_empty; exact He | left; reflexivity].
    - eexists _, _. split; [apply Bag_pops_fresh; exact Hm | left; reflexivity].
  Qed.

Lemma new_Bag_boundary : at_boundary shuffle_of (new_Bag shuffle_of).
  Proof. right. exists 0%nat. reflexivity. Qed.

Lemma Bag_pops_windows (n : nat) :
    exists pre b, Bag_pops shuffle_of (7 * n) (new_Bag shuffle_of) = Some (pre, b)
                  /\ at_boundary shuffle_of b.
  Proof.
    induction n as [|n (pre & b & Hpre & Hb)].
    - exists [], (new_Bag shuffle_of). split; [reflexivity | apply new_Bag_boundary].
    - destruct (Bag_pops_boundary b Hb) as (m & b' & H7 & Hb').
      exists (pre ++ shuffle_of m), b'. split; [|exact Hb'].
      replace (7 * Datatypes.S n)%nat with (7 * n + 7)%nat by lia.
      rewrite Bag_pops_add, Hpre, H7. reflexivity.
  Qed.

Lemma count_occ_all_kinds (k : Kind) : count_occ Kind_eq_dec all_kinds k = 1%nat.
  Proof. destruct k; reflexivity. Qed.

  (** C8.  Whatever permutations the shuffles produce, the seven pops that
      follow any whole number of bags drawn from a new [Bag] succeed and
      return each of the seven kinds exactly once. *)
Theorem bag_window_each_kind_once (n : nat) :
    exists pre b ks b',
      Bag_pops shuffle_of (7 * n) (new_Bag shuffle_of) = Some (pre, b)
      /\ Bag_pops shuffle_of 7 b = Some (ks, b')
      /\ Permutation all_kinds ks
      /\ forall k, count_occ Kind_eq_dec ks k = 1%nat.
  Proof.
    destruct (Bag_pops_windows n) as (pre & b & Hpre & Hb).
    destruct (Bag_pops_boundary b Hb) as (m & b' & H7 & _).
    exists pre, b, (shuffle_of m), b'.
    split; [exact Hpre|]. split; [exact H7|]. split; [apply shuffle_perm|].
    intros k. rewrite <- (proj1 (Permutation_count_occ Kind_eq_dec _ _) (shuffle_perm m)).
    apply count_occ_all_kinds.
  Qed.
End BagProperties.

Lemma alternating_shuffle_perm n : Permutation all_kinds (alternating_shuffle n).
Proof.
  unfold alternating_shuffle. destruct (Nat.even n);
    [apply Permutation_refl | apply Permutation_rev].
Qed.

Lemma bag_window_each_kind_once_witness :
  exists pre b ks b',
    Bag_pops alternating_shuffle 7 (new_Bag alternating_shuffle) = Some (pre, b)
    /\ Bag_pops alternating_shuffle 7 b = Some (ks, b')
    /\ Permutation all_kinds ks
    /\ forall k, count_occ Kind_eq_dec ks k = 1%nat.
Proof.
  exact (bag_window_each_kind_once alternating_shuffle alternating_shuffle_perm 1).
Defined.

(** ** Rotation *)

Lemma Piece_ext (p q : Piece) :
  kind p = kind q -> rot p = rot q -> x p = x q -> y p = y q ->
  last_action p = last_action q -> lock_resets p = lock_resets q -> p = q.
Proof. destruct p, q; simpl; intros; subst; reflexivity. Qed.

Lemma cells_ext (p q : Piece) :
  shape p = shape q -> x p = x q -> y p = y q -> cells p = cells q.
Proof. unfold cells. intros -> -> ->. reflexivity. Qed.

Lemma cells_set_last_action (p : Piece) (a : option Action) :
  cells (set_last_action p a) = cells p.
Proof. apply cells_ext; reflexivity. Qed.

Lemma collide_cells_eq (b : Board) (p q : Piece) :
  cells p = cells q -> collide b p = collide b q.
Proof. unfold collide. intros ->. reflexivity. Qed.

(** A failed 180-degree search leaves every field as it found it. *)
Lemma kick_180_fail (b : Board) (kicks : list (Z * Z)) (p p' : Piece) :
  kick_180 b p kicks = (p', false) -> p' = p.
Proof.
  revert p. induction kicks as [|[dx dy] kicks IH]; intros p; simpl.
  - intros H. injection H as <-. reflexivity.
  - destruct (collide b _); simpl; [|discriminate].
    intros H. apply IH in H. subst p'.
    apply Piece_ext; simpl; try reflexivity; lia.
Qed.

(** A failed quarter-turn search changes at most the position. *)
Lemma kick_srs_fail (b : Board) (kicks : list (Z * Z)) (ox oy : Z) (p p' : Piece) :
  kick_srs b p ox oy kicks = (p', false) ->
  kind p' = kind p /\ rot p' = rot p /\
  last_action p' = last_action p /\ lock_resets p' = lock_resets p.
Proof.
  revert p. induction kicks as [|[dx dy] kicks IH]; intros p; simpl.
  - intros H. injection H as <-. repeat split.
  - destruct (collide b _); simpl; [|discriminate].
    intros H. apply IH in H. simpl in H. exact H.
Qed.

Lemma mod4_back (r d : Z) : 0 <= r < 4 -> ((r + d) mod 4 - d) mod 4 = r.
Proof.
  intros Hr. rewrite Zminus_mod_idemp_l.
  replace (r + d - d) with r by lia. apply Z.mod_small. exact Hr.
Qed.

(** A failed attempt hands back the piece it was given. *)
Lemma rotate_fail_unchanged (b : Board) (p p' : Piece) (dir : Z) :
  valid_rot p -> rotate_with_kick b p dir = (p', false) -> p' = p.
Proof.
  intros Hrot H.
  unfold rotate_with_kick in H.
  destruct (Kind_eqb (kind p) kO && ((dir =? 1) || (dir =? -1))).
  - destruct (collide b _); [|discriminate].
    injection H as <-. apply Piece_ext; simpl; try reflexivity.
    apply mod4_back. exact Hrot.
  - destruct (dir =? 2).
    + destruct (kick_180 b _ _) as [p2 ok] eqn:Ek.
      destruct ok; [discriminate|]. injection H as <-.
      apply kick_180_fail in Ek. subst p2.
      apply Piece_ext; reflexivity.
    + destruct (kick_srs b _ _ _ _) as [p2 ok] eqn:Ek.
      destruct ok; [discriminate|]. injection H as <-.
      apply kick_srs_fail in Ek. simpl in Ek.
      destruct Ek as (Hk & _ & Ha & Hl).
      apply Piece_ext; simpl; try reflexivity; assumption.
Qed.

(** C7.  A rotation attempt that reports failure returns the piece it was
    given: position, rotation state and every other field are unchanged
    (for +1, -1, 180 degrees and any other [dir]). *)
Theorem rotate_fail_rollback (b : Board) (p p' : Piece) (dir : Z) :
  valid_rot p ->
  rotate_with_kick b p dir = (p', false) ->
  x p' = x p /\ y p' = y p /\ rot p' = rot p /\ p' = p.
Proof.
  intros Hrot H.
  rewrite (rotate_fail_unchanged b p p' dir Hrot H). repeat split.
Qed.

(** The O mask is the same in the four rotation states. *)
Lemma O_shape (p q : Piece) :
  kind p = kO -> kind q = kO -> valid_rot p -> valid_rot q -> shape p = shape q.
Proof.
  unfold valid_rot, shape. intros -> -> Hp Hq.
  assert (Ep : rot p = 0 \/ rot p = 1 \/ rot p = 2 \/ rot p = 3) by lia.
  assert (Eq : rot q = 0 \/ rot q = 1 \/ rot q = 2 \/ rot q = 3) by lia.
  destruct Ep as [-> | [-> | [-> | ->]]], Eq as [-> | [-> | [-> | ->]]];
    reflexivity.
Qed.

(** The first candidate of a 180-degree search that fits is taken. *)
Lemma kick_180_first (b : Board) (p : Piece) (dx dy : Z) (rest : list (Z * Z)) :
  collide b (set_xy p (x p + dx) (y p + dy)) = false ->
  kick_180 b p ((dx, dy) :: rest)
  = (set_last_action (set_xy p (x p + dx) (y p + dy)) (Some rotate), true).
Proof. intros H. cbn [kick_180]. rewrite H. reflexivity. Qed.

(** The quarter turn of an O piece whose turned position is free. *)
Lemma rotate_O_quarter (b : Board) (p : Piece) (dir : Z) :
  kind p = kO -> dir = 1 \/ dir = -1 ->
  collide b (set_rot p ((rot p + dir) mod 4)) = false ->
  rotate_with_kick b p dir
  = (set_last_action (set_rot p ((rot p + dir) mod 4)) (Some rotate), true).
Proof.
  intros Hk Hd Hc. unfold rotate_with_kick. rewrite Hk.
  replace ((dir =? 1) || (dir =? -1)) with true
    by (destruct Hd as [-> | ->]; reflexivity).
  cbn [Kind_eqb andb]. cbv zeta. rewrite Hc. reflexivity.
Qed.

(** The half turn of a piece whose turned position is free. *)
Lemma rotate_180_in_place (b : Board) (p : Piece) :
  collide b (set_xy (set_rot p ((rot p + 2) mod 4)) (x p + 0) (y p + 0)) = false ->
  rotate_with_kick b p 2
  = (set_last_action
       (set_xy (set_rot p ((rot p + 2) mod 4)) (x p + 0) (y p + 0))
       (Some rotate), true).
Proof.
  intros Hc. unfold rotate_with_kick.
  change ((2 =? 1) || (2 =? -1)) with false. rewrite andb_false_r.
  change (2 =? 2) with true. cbv iota zeta.
  rewrite (kick_180_first b (set_rot p ((rot p + 2) mod 4)) 0 0 _ Hc).
  reflexivity.
Qed.

(** C9.  An O piece that does not collide can always be rotated: each of
    +1, -1 and 180 degrees succeeds, the position does not move and the
    occupied cells are the same; the O mask is one and the same in the
    four rotation states. *)
Theorem O_rotation_noop (b : Board) (p : Piece) (dir : Z) :
  kind p = kO -> valid_rot p -> collide b p = false ->
  dir = 1 \/ dir = -1 \/ dir = 2 ->
  (exists p', rotate_with_kick b p dir = (p', true)
              /\ cells p' = cells p /\ x p' = x p /\ y p' = y p
              /\ rot p' = (rot p + dir) mod 4)
  /\ forall r : nat, (r < 4)%nat ->
       nth r (SHAPES kO) [] = [o;X;X;o; o;X;X;o; o;o;o;o; o;o;o;o].
Proof.
  intros Hk Hrot Hc Hdir. split.
  2:{ intros r Hr. do 4 (destruct r as [|r]; [reflexivity|]). lia. }
  assert (Hcells : forall q, kind q = kO -> valid_rot q -> x q = x p -> y q = y p ->
                             cells q = cells p).
  { intros q Hkq Hq Hx Hy. apply cells_ext; [|exact Hx|exact Hy].
    apply O_shape; assumption. }
  assert (Hmod : forall d, 0 <= (rot p + d) mod 4 < 4).
  { intros d. apply Z.mod_pos_bound. lia. }
  assert (Hquarter : dir = 1 \/ dir = -1 ->
            exists p', rotate_with_kick b p dir = (p', true)
              /\ cells p' = cells p /\ x p' = x p /\ y p' = y p
              /\ rot p' = (rot p + dir) mod 4).
  { intros Hd.
    pose proof (Hcells (set_rot p ((rot p + dir) mod 4)) Hk (Hmod dir)
                  eq_refl eq_refl) as E.
    eexists. split.
    - apply (rotate_O_quarter b p dir Hk Hd).
      rewrite (collide_cells_eq b _ p E). exact Hc.
    - rewrite cells_set_last_action. split; [exact E|].
      cbn [x y rot set_rot set_last_action]. repeat split. }
  destruct Hdir as [Hd | [Hd | ->]]; [apply Hquarter; tauto | apply Hquarter; tauto |].
  assert (E : cells (set_xy (set_rot p ((rot p + 2) mod 4)) (x p + 0) (y p + 0))
              = cells p).
  { apply Hcells; [exact Hk | apply Hmod | cbn [x set_xy]; lia | cbn [y set_xy]; lia]. }
  eexists. split.
  - apply rotate_180_in_place.
    rewrite (collide_cells_eq b _ p E). exact Hc.
  - rewrite cells_set_last_action. split; [exact E|].
    cbn [x y rot set_xy set_rot set_last_action].
    repeat split; lia.
Qed.

Lemma rotate_fail_rollback_witness :
  snd (rotate_with_kick filled_board (T_at 3 5 0 (Some move)) 1) = false /\
  fst (rotate_with_kick filled_board (T_at 3 5 0 (Some move)) 1)
  = T_at 3 5 0 (Some move).
Proof.
  split; [reflexivity|].
  apply (rotate_fail_rollback filled_board (T_at 3 5 0 (Some move)) _ 1).
  - unfold valid_rot. simpl. lia.
  - reflexivity.
Defined.

Lemma O_rotation_noop_witness :
  exists p', rotate_with_kick new_Board (new_Piece kO) 1 = (p', true)
             /\ cells p' = cells (new_Piece kO)
             /\ x p' = x (new_Piece kO) /\ y p' = y (new_Piece kO)
             /\ rot p' = (rot (new_Piece kO) + 1) mod 4.
Proof.
  apply (O_rotation_noop new_Board (new_Piece kO) 1).
  - reflexivity.
  - unfold valid_rot. simpl. lia.
  - reflexivity.
  - left. reflexivity.
Defined.

(** ** Falling to the floor *)

Lemma cells_in (p : Piece) (c : Z * Z) :
  c ∈ cells p ->
  exists i : nat, (i < 16)%nat /\ nth i (shape p) false = true
                  /\ c = (x p + Z.of_nat (Nat.modulo i 4), y p + Z.of_nat (Nat.div i 4)).
Proof.
  unfold cells.
  assert (H : forall l : list nat, (forall i, i ∈ l -> (i < 16)%nat) ->
            c ∈ foldr (fun i out =>
                         if nth i (shape p) false
                         then (x p + Z.of_nat (Nat.modulo i 4),
                               y p + Z.of_nat (Nat.div i 4)) :: out
                         else out) [] l ->
            exists i : nat, (i < 16)%nat /\ nth i (shape p) false = true
              /\ c = (x p + Z.of_nat (Nat.modulo i 4), y p + Z.of_nat (Nat.div i 4))).
  { induction l as [|i l IH]; simpl; intros Hl Hc.
    - inversion Hc.
    - assert (Hl' : forall j, j ∈ l -> (j < 16)%nat).
      { intros j Hj. apply Hl. now right. }
      destruct (nth i (shape p) false) eqn:E.
      + apply elem_of_cons in Hc. destruct Hc as [-> | Hc].
        * exists i. split; [apply Hl; now left|]. split; [exact E | reflexivity].
        * apply IH; assumption.
      + apply IH; assumption. }
  apply H. intros i Hi. apply list_elem_of_In, in_seq in Hi. lia.
Qed.

Lemma cells_nonempty (p : Piece) : valid_rot p -> cells p <> [].
Proof.
  unfold valid_rot, cells, shape. intros Hr.
  assert (E : rot p = 0 \/ rot p = 1 \/ rot p = 2 \/ rot p = 3) by lia.
  destruct (kind p), E as [-> | [-> | [-> | ->]]]; simpl; discriminate.
Qed.

Lemma cells_y_ge (p : Piece) (c : Z * Z) : c ∈ cells p -> y p <= snd c.
Proof.
  intros Hc. apply cells_in in Hc. destruct Hc as (i & _ & _ & ->). simpl. lia.
Qed.

(** A piece whose anchor is at or below row [ROWS] collides on any board. *)
Lemma collide_floor (b : Board) (p : Piece) :
  valid_rot p -> ROWS <= y p -> collide b p = true.
Proof.
  intros Hr Hy. unfold collide.
  pose proof (cells_nonempty p Hr) as Hne.
  pose proof (cells_y_ge p) as Hge.
  destruct (cells p) as [|[cx cy] rest]; [congruence|].
  specialize (Hge (cx, cy) ltac:(now left)). simpl in Hge.
  simpl. unfold ROWS in *.
  destruct (cy <? 0) eqn:E1; [lia|].
  unfold inside, ROWS.
  destruct (cy <? 22) eqn:E2; [lia|].
  rewrite andb_false_r. reflexivity.
Qed.

(** [compute_ghost_y] returns: the bound [drop_fuel] is never exhausted. *)
Lemma ghost_loop_total (b : Board) (fuel : nat) (p : Piece) :
  valid_rot p -> (drop_fuel p <= fuel)%nat ->
  exists gy, ghost_loop fuel b p = Some gy /\ y p <= gy.
Proof.
  revert p. induction fuel as [|fuel IH]; intros p Hr Hf.
  - unfold drop_fuel in Hf. lia.
  - simpl. destruct (collide b _) eqn:Ec.
    + eexists. split; [reflexivity|]. simpl. lia.
    + assert (Hy : y p + 1 < ROWS).
      { destruct (Z_lt_le_dec (y p + 1) ROWS) as [Hlt|Hge]; [exact Hlt|].
        rewrite collide_floor in Ec; [discriminate | exact Hr | exact Hge]. }
      destruct (IH (set_xy p (x p) (y p + 1))) as (gy & Hgy & Hle).
      * exact Hr.
      * unfold drop_fuel in *. simpl. unfold ROWS in *. lia.
      * exists gy. split; [exact Hgy|]. simpl in Hle. lia.
Qed.

Lemma compute_ghost_y_total (g : Game) :
  valid_rot (cur g) -> exists gy, compute_ghost_y g = Some gy.
Proof.
  intros Hr. unfold compute_ghost_y.
  destruct (ghost_loop_total (board g) (drop_fuel (cur g)) (clone (cur g)))
    as (gy & H & _); [exact Hr | unfold drop_fuel; simpl; lia |].
  exists gy. exact H.
Qed.

(** ** Moves *)

(** What [try_move] leaves alone, whatever it returns. *)
Lemma try_move_frame (g g' : Game) (dx dy : Z) (ok : bool) :
  try_move g dx dy = (g', ok) ->
  board g' = board g /\ queue g' = queue g /\ score g' = score g
  /\ lines g' = lines g /\ combo g' = combo g /\ b2b g' = b2b g
  /\ drop_distance_soft g' = drop_distance_soft g
  /\ drop_distance_hard g' = drop_distance_hard g
  /\ kind (cur g') = kind (cur g) /\ rot (cur g') = rot (cur g).
Proof.
  unfold try_move. simpl.
  destruct (collide (board g) _).
  - intros H. injection H as <- <-. simpl. repeat split.
  - destruct ((dy =? 0) && timer_running _).
    + destruct (lock_reset_count g <? LOCK_RESETS_MAX);
        intros H; injection H as <- <-; simpl; repeat split.
    + intros H; injection H as <- <-; simpl; repeat split.
Qed.

(** A rejected move restores the position and changes nothing else. *)
Lemma try_move_rejected (g g' : Game) (dx dy : Z) :
  try_move g dx dy = (g', false) ->
  collide (board g) (set_xy (cur g) (x (cur g) + dx) (y (cur g) + dy)) = true
  /\ cur g' = cur g /\ lock_timer g' = lock_timer g
  /\ lock_reset_count g' = lock_reset_count g.
Proof.
  unfold try_move. simpl.
  destruct (collide (board g) _) eqn:Ec.
  - intros H. injection H as <-. simpl. split; [reflexivity|].
    split; [|split; reflexivity].
    apply Piece_ext; reflexivity.
  - destruct ((dy =? 0) && timer_running _).
    + destruct (lock_reset_count g <? LOCK_RESETS_MAX); discriminate.
    + discriminate.
Qed.

(** An accepted move shifts the piece and tags it ['move']. *)
Lemma try_move_accepted (g g' : Game) (dx dy : Z) :
  try_move g dx dy = (g', true) ->
  collide (board g) (set_xy (cur g) (x (cur g) + dx) (y (cur g) + dy)) = false
  /\ x (cur g') = x (cur g) + dx /\ y (cur g') = y (cur g) + dy
  /\ last_action (cur g') = Some move.
Proof.
  unfold try_move. simpl.
  destruct (collide (board g) _) eqn:Ec.
  - discriminate.
  - destruct ((dy =? 0) && timer_running _).
    + destruct (lock_reset_count g <? LOCK_RESETS_MAX);
        intros H; injection H as <-; simpl; repeat split.
    + intros H; injection H as <-; simpl; repeat split.
Qed.

(** The lock-delay timer after a move: reset to zero exactly when the move
    is accepted, horizontal ([dy = 0]), a timer is running and fewer than
    [LOCK_RESETS_MAX] resets have been used; unchanged otherwise. *)
Lemma try_move_timer (g g' : Game) (dx dy : Z) (ok : bool) :
  try_move g dx dy = (g', ok) ->
  if ok && (dy =? 0) && timer_running g && (lock_reset_count g <? LOCK_RESETS_MAX)
  then lock_timer g' = Some 0%Q /\ lock_reset_count g' = lock_reset_count g + 1
  else lock_timer g' = lock_timer g /\ lock_reset_count g' = lock_reset_count g.
Proof.
  unfold try_move. simpl.
  destruct (collide (board g) _).
  - intros H. injection H as <- <-. simpl. split; reflexivity.
  - unfold timer_running at 1. simpl. fold (timer_running g).
    destruct (dy =? 0), (timer_running g); simpl;
      try (intros H; injection H as <- <-; simpl; split; reflexivity).
    destruct (lock_reset_count g <? LOCK_RESETS_MAX);
      intros H; injection H as <- <-; simpl; split; reflexivity.
Qed.

(** Being on the ground is the rejection of a one-cell down move. *)
Lemma on_ground_down (g : Game) :
  on_ground g = negb (snd (try_move g 0 1)).
Proof.
  assert (E : cells (set_xy (clone (cur g)) (x (cur g)) (y (cur g) + 1))
              = cells (set_xy (cur g) (x (cur g) + 0) (y (cur g) + 1))).
  { apply cells_ext; simpl; [reflexivity | lia | reflexivity]. }
  unfold on_ground, try_move. cbn [board cur with_cur x y clone].
  rewrite (collide_cells_eq (board g) _ _ E).
  destruct (collide (board g) _); reflexivity.
Qed.

(** C5.  With a lock-delay timer running and fewer than 15 resets used, as
    for a piece on the ground, every accepted move tags the piece
    ['move']; an accepted horizontal move puts the timer at zero and
    counts one reset; an accepted down move leaves the timer and the
    counter as they are.  From the ground no down move is accepted: its
    test is the one that decides [on_ground]. *)
Theorem grounded_move_resets_timer (g g' : Game) (dx dy : Z) (t : Q) :
  lock_timer g = Some t ->
  lock_reset_count g < LOCK_RESETS_MAX ->
  try_move g dx dy = (g', true) ->
  last_action (cur g') = Some move
  /\ (dy = 0 ->
      lock_timer g' = Some 0%Q /\ lock_reset_count g' = lock_reset_count g + 1)
  /\ (dy <> 0 ->
      lock_timer g' = Some t /\ lock_reset_count g' = lock_reset_count g)
  /\ (on_ground g = true -> dx = 0 -> dy <> 1).
Proof.
  intros Ht Hc Hm.
  pose proof (try_move_timer _ _ _ _ _ Hm) as Htm.
  pose proof (try_move_accepted _ _ _ _ Hm) as (_ & _ & _ & Ha).
  unfold timer_running in Htm. rewrite Ht in Htm.
  apply Z.ltb_lt in Hc. rewrite Hc in Htm. cbn [andb] in Htm.
  split; [exact Ha|]. split; [|split].
  - intros ->. exact Htm.
  - intros Hdy. apply Z.eqb_neq in Hdy. rewrite Hdy in Htm. exact Htm.
  - intros Hg -> ->. rewrite on_ground_down, Hm in Hg. discriminate Hg.
Qed.

Lemma grounded_move_resets_timer_witness :
  on_ground grounded_T = true /\
  snd (try_move grounded_T 1 0) = true /\
  lock_timer (fst (try_move grounded_T 1 0)) = Some 0%Q.
Proof.
  split; [reflexivity|]. split; [reflexivity|].
  apply (grounded_move_resets_timer grounded_T (fst (try_move grounded_T 1 0))
           1 0 (1 # 4)%Q).
  - reflexivity.
  - reflexivity.
  - reflexivity.
  - reflexivity.
Defined.

(** A T piece one row above the floor, its timer at a quarter second and
    no reset used, goes down one row and lands: the timer still reads a
    quarter second and no reset is counted. *)
Lemma down_move_keeps_timer :
  timer_running landing_T = true
  /\ lock_reset_count landing_T < LOCK_RESETS_MAX
  /\ snd (try_move landing_T 0 1) = true
  /\ on_ground (fst (try_move landing_T 0 1)) = true
  /\ lock_timer (fst (try_move landing_T 0 1)) = Some (1 # 4)%Q
  /\ lock_reset_count (fst (try_move landing_T 0 1)) = 0
  /\ ~ down_move_resets_timer landing_T.
Proof.
  conjs; try reflexivity.
  intros H.
  specialize (H eq_refl eq_refl (fst (try_move landing_T 0 1)) eq_refl eq_refl).
  vm_compute in H. discriminate H.
Qed.

(** Down moves never touch the lock-delay timer. *)
Lemma vertical_move_keeps_timer (g : Game) (dx dy : Z) :
  dy <> 0 ->
  lock_timer (fst (try_move g dx dy)) = lock_timer g
  /\ lock_reset_count (fst (try_move g dx dy)) = lock_reset_count g.
Proof.
  intros Hdy. destruct (try_move g dx dy) as [g' ok] eqn:E.
  pose proof (try_move_timer _ _ _ _ _ E) as H.
  apply Z.eqb_neq in Hdy. rewrite Hdy, andb_false_r in H. exact H.
Qed.

(** ** Rotation inside the game *)

Lemma kick_180_rot (b : Board) (kicks : list (Z * Z)) (p : Piece) :
  rot (fst (kick_180 b p kicks)) = rot p.
Proof.
  revert p. induction kicks as [|[dx dy] kicks IH]; intros p; simpl; [reflexivity|].
  destruct (collide b _); simpl; [|reflexivity].
  rewrite IH. reflexivity.
Qed.

Lemma kick_srs_rot (b : Board) (kicks : list (Z * Z)) (ox oy : Z) (p : Piece) :
  rot (fst (kick_srs b p ox oy kicks)) = rot p.
Proof.
  revert p. induction kicks as [|[dx dy] kicks IH]; intros p; simpl; [reflexivity|].
  destruct (collide b _); simpl; [|reflexivity].
  rewrite IH. reflexivity.
Qed.

Lemma rotate_valid (b : Board) (p : Piece) (dir : Z) :
  valid_rot p -> valid_rot (fst (rotate_with_kick b p dir)).
Proof.
  intros Hr.
  destruct (rotate_with_kick b p dir) as [p' ok] eqn:E.
  destruct ok.
  2:{ apply rotate_fail_unchanged in E; [|exact Hr]. subst p'. exact Hr. }
  simpl. unfold valid_rot.
  assert (Hmod : forall d, 0 <= (rot p + d) mod 4 < 4).
  { intros d. apply Z.mod_pos_bound. lia. }
  unfold rotate_with_kick in E.
  destruct (Kind_eqb (kind p) kO && ((dir =? 1) || (dir =? -1))).
  - destruct (collide b _); [discriminate|].
    injection E as <-. simpl. apply Hmod.
  - destruct (dir =? 2).
    + pose proof (kick_180_rot b [(0,0); (1,0); (-1,0); (0,1); (0,-1); (2,0); (-2,0)]
                    (set_rot p ((rot p + 2) mod 4))) as Hk.
      destruct (kick_180 b _ _) as [p2 ok]. simpl in Hk.
      destruct ok; [|discriminate]. injection E as <-. rewrite Hk. apply Hmod.
    + pose proof (fun ks => kick_srs_rot b ks (x p) (y p)
                    (set_rot p ((rot p + dir) mod 4))) as Hk.
      match type of E with context [kick_srs b _ _ _ ?ks] => specialize (Hk ks) end.
      destruct (kick_srs b _ _ _ _) as [p2 ok]. simpl in Hk.
      destruct ok; [|discriminate]. injection E as <-. rewrite Hk. apply Hmod.
Qed.


(** ** The bound on lock-delay resets *)



Example run_grounded_T :
  option_map snd (run [Move 1 0; Rotate 1; Move (-1) 0; Move 0 1] grounded_T) = Some 3.
Proof. reflexivity. Qed.

(** ** Locking *)

Lemma lock_cell_other_row (k : Kind) (g : Grid) (c : Z * Z) (i : nat) :
  snd c <> Z.of_nat i -> lock_cell k g c !! i = g !! i.
Proof.
  destruct c as [cx cy]. simpl. intros Hne. unfold lock_cell.
  destruct ((0 <=? cy) && (cy <? ROWS) && (0 <=? cx) && (cx <? COLS)) eqn:E;
    [|reflexivity].
  apply list_lookup_alter_ne.
  intros Heq. apply Hne. rewrite <- Heq.
  rewrite !andb_true_iff in E. destruct E as [[[E _] _] _].
  apply Z.leb_le in E. lia.
Qed.

Lemma lock_other_row (k : Kind) (cs : list (Z * Z)) (g : Grid) (i : nat) :
  (forall c, c ∈ cs -> snd c <> Z.of_nat i) ->
  foldl (lock_cell k) g cs !! i = g !! i.
Proof.
  revert g. induction cs as [|c cs IH]; intros g Hcs; simpl; [reflexivity|].
  rewrite IH.
  - apply lock_cell_other_row. apply Hcs. now left.
  - intros c' Hc'. apply Hcs. now right.
Qed.

Lemma new_Board_no_full_rows : no_full_rows new_Board.
Proof. reflexivity. Qed.

Lemma full_rows_elem (g : Grid) (i : nat) :
  i ∈ full_rows g <-> (i < Z.to_nat ROWS)%nat /\ row_full (row_at g i) = true.
Proof.
  unfold full_rows. rewrite list_elem_of_In, List.filter_In, in_seq. simpl.
  split; [intros [[_ H1] H2] | intros [H1 H2]]; (split; [lia | exact H2]).
Qed.

(** A row that becomes full by a lock holds a cell of the locked piece. *)
Lemma full_after_lock (b : Board) (p : Piece) (i : nat) :
  no_full_rows b ->
  i ∈ full_rows (grid (lock b p)) ->
  exists c, c ∈ cells p /\ snd c = Z.of_nat i.
Proof.
  intros Hnf Hi. apply full_rows_elem in Hi. destruct Hi as [Hlt Hfull].
  destruct (decide (Exists (fun c => snd c = Z.of_nat i) (cells p))) as [He|Hn].
  - apply Exists_exists in He. exact He.
  - exfalso.
    assert (Hrow : grid (lock b p) !! i = grid b !! i).
    { apply lock_other_row. intros c Hc Heq. apply Hn.
      apply Exists_exists. exists c. split; assumption. }
    unfold row_at in Hfull. rewrite Hrow in Hfull.
    assert (Hin : i ∈ full_rows (grid b)).
    { apply full_rows_elem. split; [exact Hlt | exact Hfull]. }
    rewrite Hnf in Hin. inversion Hin.
Qed.

(** The T masks use the first three rows of the 4x4 box only. *)
Lemma T_cells_rows (p : Piece) (c : Z * Z) :
  kind p = kT -> valid_rot p -> c ∈ cells p -> y p <= snd c < y p + 3.
Proof.
  intros Hk Hr Hc. apply cells_in in Hc. destruct Hc as (i & Hi & Hs & ->).
  unfold shape, valid_rot in *. rewrite Hk in Hs.
  assert (E : rot p = 0 \/ rot p = 1 \/ rot p = 2 \/ rot p = 3) by lia.
  cbn [snd].
  assert (Hrow : (i < 12)%nat).
  { destruct E as [E | [E | [E | E]]]; rewrite E in Hs; simpl in Hs;
      do 12 (destruct i as [|i]; [lia|]);
      do 4 (destruct i as [|i]; [discriminate Hs|]); lia. }
  assert (Hdiv : (Nat.div i 4 <= 2)%nat).
  { apply Nat.lt_succ_r. apply Nat.Div0.div_lt_upper_bound. lia. }
  lia.
Qed.

Lemma full_rows_NoDup (g : Grid) : List.NoDup (full_rows g).
Proof. unfold full_rows. apply List.NoDup_filter, seq_NoDup. Qed.

(** Locking a T piece on a board without full rows fills at most 3 rows. *)
Lemma T_lock_at_most_three (b : Board) (p : Piece) :
  no_full_rows b -> kind p = kT -> valid_rot p ->
  (length (full_rows (grid (lock b p))) <= 3)%nat.
Proof.
  intros Hnf Hk Hr.
  apply (List.NoDup_incl_length (l' := List.map Z.to_nat [y p; y p + 1; y p + 2])
           (full_rows_NoDup _)).
  intros i Hi. apply list_elem_of_In in Hi.
  destruct (full_after_lock b p i Hnf Hi) as (c & Hc & Hci).
  pose proof (T_cells_rows p c Hk Hr Hc) as Hrows.
  rewrite Hci in Hrows. simpl.
  assert (E : Z.of_nat i = y p \/ Z.of_nat i = y p + 1 \/ Z.of_nat i = y p + 2) by lia.
  destruct E as [E | [E | E]]; rewrite <- E, Nat2Z.id; tauto.
Qed.

Lemma lock_and_clear_spec (g g1 : Game) (cleared : Z) (idx : list nat) :
  lock_and_clear g = (g1, cleared, idx) ->
  clear_lines (lock (board g) (cur g)) = (cleared, idx, board g1)
  /\ cur g1 = cur g /\ queue g1 = queue g
  /\ score g1 = score g + (drop_distance_soft g * 1 + drop_distance_hard g * 2)
  /\ drop_distance_soft g1 = 0 /\ drop_distance_hard g1 = 0
  /\ lines g1 = lines g /\ combo g1 = combo g /\ b2b g1 = b2b g.
Proof.
  unfold lock_and_clear. simpl.
  intros H. injection H as <- <- <-. simpl. repeat split.
Qed.

Lemma is_tspin_total (b : Board) (p : Piece) (n : Z) (a : option Action) :
  valid_rot p -> exists r, is_tspin b p n a = Some r.
Proof.
  unfold valid_rot, is_tspin. intros Hr.
  destruct (negb (Kind_eqb (kind p) kT) || negb (is_rotate a) || (n <=? 0));
    [eexists; reflexivity|].
  destruct (count_occupied b _ <? 3); [eexists; reflexivity|].
  assert (E : rot p = 0 \/ rot p = 1 \/ rot p = 2 \/ rot p = 3) by lia.
  destruct E as [-> | [-> | [-> | ->]]]; eexists; reflexivity.
Qed.

(** Only a T piece whose last action is a rotation can be a T-spin. *)
Lemma is_tspin_needs_rotation (b : Board) (p : Piece) (n : Z) (a : option Action) :
  kind p <> kT \/ a <> Some rotate ->
  is_tspin b p n a = Some (false, false).
Proof.
  unfold is_tspin. intros [Hk | Ha].
  - destruct (Kind_eqb (kind p) kT) eqn:E; [|reflexivity].
    apply Kind_eqb_eq in E. contradiction.
  - destruct a as [[|]|]; simpl; try (rewrite orb_true_r; reflexivity).
    contradiction.
Qed.

Section LockSequence.
Variable shuffle_of : nat -> list Kind.
Hypothesis shuffle_perm : forall n, Permutation all_kinds (shuffle_of n).

Lemma Bag_pop_total (b : Bag) : exists k b', Bag_pop shuffle_of b = Some (k, b').
  Proof.
    unfold Bag_pop. destruct (pool b) as [|k rest] eqn:E.
    - unfold refill. rewrite E. simpl.
      pose proof (shuffle_length shuffle_of shuffle_perm (rng b)) as Hl.
      destruct (shuffle_of (rng b)) as [|k rest]; [discriminate Hl|].
      eexists _, _. reflexivity.
    - rewrite E. eexists _, _. reflexivity.
  Qed.

  (** [spawn] returns when the queue holds an item, and touches neither the
      board nor the score state. *)
Lemma spawn_total (g : Game) :
    items (queue g) <> [] ->
    exists g', spawn shuffle_of g = Some g'
      /\ board g' = board g /\ score g' = score g /\ lines g' = lines g
      /\ combo g' = combo g /\ b2b g' = b2b g /\ level g' = level g
      /\ drop_distance_soft g' = drop_distance_soft g
      /\ drop_distance_hard g' = drop_distance_hard g
      /\ lock_timer g' = None /\ lock_reset_count g' = 0
      /\ valid_rot (cur g') /\ items (queue g') <> [].
  Proof.
    intros Hq. unfold spawn, Queue_next.
    destruct (items (queue g)) as [|n rest]; [congruence|].
    destruct (Bag_pop_total (bag (queue g))) as (k & b' & ->).
    cbn [mbind option_bind]. cbv zeta.
    cbn [board cur with_cur with_queue with_hold_used].
    assert (Hnew : valid_rot (new_Piece n)) by (unfold valid_rot; simpl; lia).
    assert (Hne : rest ++ [k] <> []).
    { intros Habs. apply app_eq_nil in Habs. destruct Habs; discriminate. }
    destruct (collide (board g) (new_Piece n));
      match goal with |- context [compute_ghost_y ?g0] =>
        destruct (compute_ghost_y_total g0 Hnew) as [gy Hgy]; rewrite Hgy
      end;
      (eexists; split; [reflexivity|]; conjs; solve [reflexivity | exact Hnew | exact Hne]).
  Qed.

  (** [lock_piece] returns, with the score state that the classification of
      the lock gives. *)
Lemma lock_piece_total (g g1 : Game) (cleared : Z) (idx : list nat)
        (tspin mini : bool) :
    items (queue g) <> [] ->
    lock_and_clear g = (g1, cleared, idx) ->
    is_tspin (board g1) (cur g1) cleared (last_action (cur g1)) = Some (tspin, mini) ->
    exists g', lock_piece shuffle_of g = Some g'
      /\ let s := apply_score g1 (fst (classify tspin mini cleared))
                              (snd (classify tspin mini cleared)) cleared idx in
         score g' = score s /\ combo g' = combo s /\ b2b g' = b2b s
         /\ lines g' = lines s /\ board g' = board g1
         /\ drop_distance_soft g' = 0 /\ drop_distance_hard g' = 0.
  Proof.
    intros Hq Hlc Hts. unfold lock_piece. rewrite Hlc, Hts. simpl.
    pose proof (lock_and_clear_spec _ _ _ _ Hlc) as (_ & _ & Hq1 & _ & Hs & Hh & _).
    destruct (classify tspin mini cleared) as [lt isb]. simpl.
    set (s := apply_score g1 lt isb cleared idx).
    assert (Hframe : queue s = queue g1 /\ board s = board g1
                     /\ drop_distance_soft s = drop_distance_soft g1
                     /\ drop_distance_hard s = drop_distance_hard g1).
    { unfold s, apply_score. destruct lt; simpl; repeat split. }
    destruct Hframe as (Hqs & Hbs & Hss & Hhs).
    destruct (spawn_total (with_level s (1 + lines s / 10))) as (g' & Hsp & H).
    { simpl. rewrite Hqs, Hq1. exact Hq. }
    exists g'. split; [exact Hsp|]. simpl in H.
    destruct H as (Hb & Hsc & Hl & Hc & Hbb & _ & Hds & Hdh & _).
    rewrite Hb, Hsc, Hl, Hc, Hbb, Hds, Hdh, Hss, Hhs, Hbs.
    repeat split; assumption.
  Qed.
End LockSequence.

(** ** Hard drop *)

(** The fall of [hard_drop]: the loop returns within [drop_fuel] rounds,
    having moved the piece straight down by the distance it reports, onto
    the ground; an accepted cell leaves the tag ['move'], no accepted cell
    leaves the piece as it was. *)
Lemma hard_drop_loop_spec (fuel : nat) (g : Game) (dist : Z) :
  valid_rot (cur g) -> (drop_fuel (cur g) <= fuel)%nat ->
  exists g1 m, hard_drop_loop fuel g dist = Some (g1, dist + m) /\ 0 <= m
    /\ board g1 = board g /\ queue g1 = queue g /\ score g1 = score g
    /\ lines g1 = lines g /\ combo g1 = combo g /\ b2b g1 = b2b g
    /\ drop_distance_soft g1 = drop_distance_soft g
    /\ drop_distance_hard g1 = drop_distance_hard g
    /\ kind (cur g1) = kind (cur g) /\ rot (cur g1) = rot (cur g)
    /\ x (cur g1) = x (cur g) /\ y (cur g1) = y (cur g) + m
    /\ (m = 0 -> cur g1 = cur g)
    /\ (0 < m -> last_action (cur g1) = Some move)
    /\ on_ground g1 = true.
Proof.
  revert g dist. induction fuel as [|fuel IH]; intros g dist Hr Hf.
  - unfold drop_fuel in Hf. lia.
  - simpl. destruct (try_move g 0 1) as [g1 ok] eqn:E.
    pose proof (try_move_frame _ _ _ _ _ E)
      as (Hb & Hq & Hs & Hl & Hc & Hbb & Hds & Hdh & Hk & Hrot).
    destruct ok.
    + pose proof (try_move_accepted _ _ _ _ E) as (Hcol & Hx & Hy & Ha).
      assert (Hlt : y (cur g) + 1 < ROWS).
      { destruct (Z_lt_le_dec (y (cur g) + 1) ROWS) as [Hlt|Hge]; [exact Hlt|].
        rewrite collide_floor in Hcol; [discriminate | exact Hr | exact Hge]. }
      destruct (IH g1 (dist + 1)) as (g2 & m & Hloop & Hm & H).
      * unfold valid_rot in *. rewrite Hrot. exact Hr.
      * unfold drop_fuel in *. rewrite Hy. unfold ROWS in *. lia.
      * destruct H as (Hb2 & Hq2 & Hs2 & Hl2 & Hc2 & Hbb2 & Hds2 & Hdh2 & Hk2
                       & Hrot2 & Hx2 & Hy2 & Hz & Hpos & Hg).
        exists g2, (m + 1). split; [rewrite Hloop; f_equal; f_equal; lia|].
        split; [lia|].
        rewrite Hb2, Hq2, Hs2, Hl2, Hc2, Hbb2, Hds2, Hdh2, Hk2, Hrot2, Hx2, Hy2.
        repeat split; try assumption; try lia.
        intros _. destruct (Z.eq_dec m 0) as [Hm0 | Hm0].
        -- rewrite (Hz Hm0). exact Ha.
        -- apply Hpos. lia.
    + pose proof (try_move_rejected _ _ _ _ E) as (Hcol & Hcur & _).
      exists g1, 0. split; [f_equal; f_equal; lia|]. split; [lia|].
      rewrite Hcur. repeat split; try assumption; try lia.
      pose proof (on_ground_down g) as Hg. rewrite E in Hg. simpl in Hg.
      unfold on_ground in *. rewrite Hb, Hcur. exact Hg.
Qed.

Lemma hard_drop_fall_spec (g : Game) :
  valid_rot (cur g) ->
  exists g1 m, hard_drop_fall g = Some (g1, m) /\ 0 <= m
    /\ board g1 = board g /\ queue g1 = queue g /\ score g1 = score g
    /\ lines g1 = lines g /\ combo g1 = combo g /\ b2b g1 = b2b g
    /\ drop_distance_soft g1 = drop_distance_soft g
    /\ drop_distance_hard g1 = drop_distance_hard g + m
    /\ kind (cur g1) = kind (cur g) /\ rot (cur g1) = rot (cur g)
    /\ x (cur g1) = x (cur g) /\ y (cur g1) = y (cur g) + m
    /\ (m = 0 -> cur g1 = cur g)
    /\ (0 < m -> last_action (cur g1) = Some move)
    /\ on_ground g1 = true.
Proof.
  intros Hr. unfold hard_drop_fall.
  destruct (hard_drop_loop_spec (drop_fuel (cur g)) g 0 Hr (Nat.le_refl _))
    as (g1 & m & Hloop & Hm & Hb & Hq & Hs & Hl & Hc & Hbb & Hds & Hdh & Hk
        & Hrot & Hx & Hy & Hz & Hpos & Hg).
  rewrite Hloop. simpl. eexists _, m. split; [reflexivity|]. simpl.
  rewrite Hdh. repeat split; try assumption; try lia.
Qed.

(** The classes that [classify] gives to a lock that is not a T-spin. *)
Lemma classify_plain (cleared : Z) (lt : LineType) :
  fst (classify false false cleared) = Some lt ->
  lt = single \/ lt = double \/ lt = triple \/ lt = tetris.
Proof.
  unfold classify.
  destruct (cleared =? 1); [intros H; injection H as <-; tauto|].
  destruct (cleared =? 2); [intros H; injection H as <-; tauto|].
  destruct (cleared =? 3); [intros H; injection H as <-; tauto|].
  destruct (cleared =? 4); [intros H; injection H as <-; tauto|].
  discriminate.
Qed.

(** C10.  A hard drop always returns from its fall.  If the piece fell by
    at least one cell, its tag at lock time is ['move'], the T-spin test
    answers no on every board and line count, and the lock is classed
    among single, double, triple and tetris.  If it fell by no cell, the
    piece, and so a ['rotate'] tag, reaches the lock unchanged. *)
Theorem hard_drop_travel_drops_rotate_tag (g : Game) :
  valid_rot (cur g) ->
  exists g1 m, hard_drop_fall g = Some (g1, m) /\ 0 <= m
    /\ (0 < m ->
        last_action (cur g1) = Some move
        /\ (forall b n, is_tspin b (cur g1) n (last_action (cur g1))
                        = Some (false, false))
        /\ (forall n lt, fst (classify false false n) = Some lt ->
              lt = single \/ lt = double \/ lt = triple \/ lt = tetris))
    /\ (m = 0 -> cur g1 = cur g /\ last_action (cur g1) = last_action (cur g)).
Proof.
  intros Hr.
  destruct (hard_drop_fall_spec g Hr)
    as (g1 & m & Hfall & Hm & _ & _ & _ & _ & _ & _ & _ & _ & _ & _ & _ & _
        & Hz & Hpos & _).
  exists g1, m. split; [exact Hfall|]. split; [exact Hm|]. split.
  - intros Hlt. specialize (Hpos Hlt). split; [exact Hpos|]. split.
    + intros b n. apply is_tspin_needs_rotation. right. rewrite Hpos. discriminate.
    + intros n lt. apply classify_plain.
  - intros H0. rewrite (Hz H0). split; reflexivity.
Qed.

(** ** Scoring a lock *)

Lemma front_corners_facing (r cx cy : Z) :
  0 <= r < 4 -> front_corners r cx cy = Some (facing_corners r cx cy).
Proof.
  intros Hr. assert (E : r = 0 \/ r = 1 \/ r = 2 \/ r = 3) by lia.
  destruct E as [-> | [-> | [-> | ->]]]; reflexivity.
Qed.

(** The answer of [is_tspin] on the mini pattern. *)
Lemma is_tspin_mini (b : Board) (p : Piece) :
  kind p = kT -> valid_rot p ->
  3 <= count_occupied b (corners (x p + 1) (y p + 1)) ->
  count_occupied b (facing_corners (rot p) (x p + 1) (y p + 1)) = 1 ->
  is_tspin b p 1 (Some rotate) = Some (true, true).
Proof.
  intros Hk Hr H3 H1. unfold is_tspin. rewrite Hk. simpl.
  destruct (count_occupied b _ <? 3) eqn:E; [apply Z.ltb_lt in E; lia|].
  rewrite (front_corners_facing _ _ _ Hr), H1. reflexivity.
Qed.

Section Scoring.
Variable shuffle_of : nat -> list Kind.
Hypothesis shuffle_perm : forall n, Permutation all_kinds (shuffle_of n).

(** C1.  When a T piece whose last action was a rotation locks and clears
    exactly one line, with at least 3 of the 4 corners around its centre
    occupied on the board after the clear and exactly one of its two
    facing corners occupied, the lock is a T-spin and a mini, its class is
    the mini single and its table score is 200; the lock adds that base
    (times 1.5 when back-to-back was set) and 50 per combo step. *)
Theorem tspin_mini_single_scores_200 (g g1 : Game) (cleared : Z) (idx : list nat) :
  items (queue g) <> [] -> valid_rot (cur g) ->
  kind (cur g) = kT -> last_action (cur g) = Some rotate ->
  lock_and_clear g = (g1, cleared, idx) ->
  cleared = 1 ->
  3 <= count_occupied (board g1) (corners (x (cur g) + 1) (y (cur g) + 1)) ->
  count_occupied (board g1)
    (facing_corners (rot (cur g)) (x (cur g) + 1) (y (cur g) + 1)) = 1 ->
  is_tspin (board g1) (cur g) cleared (last_action (cur g)) = Some (true, true)
  /\ classify true true cleared = (Some tspin_mini_single, true)
  /\ SCORE_TABLE tspin_mini_single = 200
  /\ exists g', lock_piece shuffle_of g = Some g'
       /\ combo g' = (if 0 <=? combo g then combo g + 1 else 0)
       /\ score g' = score g
                     + (drop_distance_soft g * 1 + drop_distance_hard g * 2)
                     + ((if b2b g then 300 else 200) + 50 * combo g')
       /\ b2b g' = true.
Proof.
  intros Hq Hr Hk Ha Hlc -> H3 H1.
  pose proof (lock_and_clear_spec _ _ _ _ Hlc)
    as (_ & Hcur & _ & Hs & _ & _ & _ & Hc & Hbb).
  assert (Hts : is_tspin (board g1) (cur g) 1 (last_action (cur g)) = Some (true, true)).
  { rewrite Ha. apply is_tspin_mini; assumption. }
  split; [exact Hts|]. split; [reflexivity|]. split; [reflexivity|].
  destruct (lock_piece_total shuffle_of shuffle_perm g g1 1 idx true true Hq Hlc)
    as (g' & Hlock & Hsc & Hco & Hb2 & _).
  { rewrite Hcur. exact Hts. }
  exists g'. split; [exact Hlock|].
  simpl in Hsc, Hco, Hb2. rewrite Hco, Hsc, Hb2, Hs, Hc, Hbb.
  split; [reflexivity|]. split; [|reflexivity].
  change (b2b_bonus 200) with 300. reflexivity.
Qed.

(** C2.  With back-to-back set, a lock that clears 4 lines (on a board
    that had no full row before the lock) scores the tetris base times
    1.5, that is 1200, plus 50 per combo step, and back-to-back stays
    set. *)
Theorem back_to_back_tetris_scores_1200 (g g1 : Game) (cleared : Z) (idx : list nat) :
  items (queue g) <> [] -> valid_rot (cur g) ->
  no_full_rows (board g) ->
  b2b g = true ->
  lock_and_clear g = (g1, cleared, idx) ->
  cleared = 4 ->
  b2b_bonus (SCORE_TABLE tetris) = 1200
  /\ classify false false cleared = (Some tetris, true)
  /\ exists g', lock_piece shuffle_of g = Some g'
       /\ combo g' = (if 0 <=? combo g then combo g + 1 else 0)
       /\ score g' = score g
                     + (drop_distance_soft g * 1 + drop_distance_hard g * 2)
                     + (1200 + 50 * combo g')
       /\ b2b g' = true.
Proof.
  intros Hq Hr Hnf Hbt Hlc ->.
  split; [reflexivity|]. split; [reflexivity|].
  pose proof (lock_and_clear_spec _ _ _ _ Hlc)
    as (Hcl & Hcur & _ & Hs & _ & _ & _ & Hc & Hbb).
  assert (Hts : is_tspin (board g1) (cur g1) 4 (last_action (cur g1))
                = Some (false, false)).
  { apply is_tspin_needs_rotation. left. rewrite Hcur. intros Hk.
    pose proof (T_lock_at_most_three (board g) (cur g) Hnf Hk Hr) as Hle.
    unfold clear_lines in Hcl.
    apply (f_equal (fun t => fst (fst t))) in Hcl. cbn [fst] in Hcl. lia. }
  destruct (lock_piece_total shuffle_of shuffle_perm g g1 4 idx false false Hq Hlc Hts)
    as (g' & Hlock & Hsc & Hco & Hb2 & _).
  exists g'. split; [exact Hlock|].
  simpl in Hsc, Hco, Hb2. rewrite Hco, Hsc, Hb2, Hs, Hc, Hbb, Hbt.
  split; [reflexivity|]. split; [|reflexivity].
  change (b2b_bonus 800) with 1200. cbn [andb]. reflexivity.
Qed.

(** C3 (as the code has it).  A hard drop that travels [m] cells adds [m]
    to the pending hard-drop distance, one per cell; the lock that follows
    adds the pending soft-drop distance times 1 plus the pending hard-drop
    distance times 2 to the score, so 2 points per hard-dropped cell, and
    sets both distances to zero. *)
Theorem hard_drop_credit (g : Game) :
  valid_rot (cur g) -> items (queue g) <> [] ->
  exists g1 m, hard_drop_fall g = Some (g1, m) /\ 0 <= m
    /\ y (cur g1) = y (cur g) + m /\ on_ground g1 = true
    /\ drop_distance_hard g1 = drop_distance_hard g + m
    /\ drop_distance_soft g1 = drop_distance_soft g
    /\ score g1 = score g
    /\ (forall g2 cleared idx, lock_and_clear g1 = (g2, cleared, idx) ->
          score g2 = score g + (drop_distance_soft g * 1
                                + (drop_distance_hard g + m) * 2)
          /\ drop_distance_soft g2 = 0 /\ drop_distance_hard g2 = 0)
    /\ exists g3, hard_drop shuffle_of g = Some g3
         /\ drop_distance_soft g3 = 0 /\ drop_distance_hard g3 = 0.
Proof.
  intros Hr Hq.
  destruct (hard_drop_fall_spec g Hr)
    as (g1 & m & Hfall & Hm & _ & Hq1 & Hs & _ & _ & _ & Hds & Hdh & _ & Hrot
        & _ & Hy & _ & _ & Hg).
  exists g1, m. split; [exact Hfall|]. split; [exact Hm|].
  split; [exact Hy|]. split; [exact Hg|]. split; [exact Hdh|].
  split; [exact Hds|]. split; [exact Hs|]. split.
  - intros g2 cleared idx Hlc.
    pose proof (lock_and_clear_spec _ _ _ _ Hlc) as (_ & _ & _ & Hs2 & H1 & H2 & _).
    rewrite Hs2, Hs, Hds, Hdh. repeat split; assumption.
  - unfold hard_drop. rewrite Hfall. simpl.
    destruct (lock_and_clear g1) as [[g2 cleared] idx] eqn:Hlc.
    pose proof (lock_and_clear_spec _ _ _ _ Hlc) as (_ & Hcur & _).
    assert (Hr2 : valid_rot (cur g2)).
    { unfold valid_rot in *. rewrite Hcur, Hrot. exact Hr. }
    destruct (is_tspin_total (board g2) (cur g2) cleared (last_action (cur g2)) Hr2)
      as [[tspin mini] Hts].
    destruct (lock_piece_total shuffle_of shuffle_perm g1 g2 cleared idx tspin mini)
      as (g3 & Hlock & _ & _ & _ & _ & _ & H1 & H2).
    + rewrite Hq1. exact Hq.
    + exact Hlc.
    + exact Hts.
    + exists g3. split; [exact Hlock|]. split; assumption.
Qed.
End Scoring.

(** ** Sample locks *)

Lemma tspin_mini_single_scores_200_witness :
  lock_and_clear tslot_state = (fst (fst (lock_and_clear tslot_state)), 1, [21%nat])
  /\ exists g', lock_piece alternating_shuffle tslot_state = Some g'
       /\ combo g' = (if 0 <=? combo tslot_state then combo tslot_state + 1 else 0)
       /\ score g' = score tslot_state
                     + (drop_distance_soft tslot_state * 1
                        + drop_distance_hard tslot_state * 2)
                     + ((if b2b tslot_state then 300 else 200) + 50 * combo g')
       /\ b2b g' = true.
Proof.
  split; [reflexivity|].
  destruct (tspin_mini_single_scores_200 alternating_shuffle alternating_shuffle_perm
              tslot_state (fst (fst (lock_and_clear tslot_state))) 1 [21%nat])
    as (_ & _ & _ & H).
  - discriminate.
  - unfold valid_rot. simpl. lia.
  - reflexivity.
  - reflexivity.
  - reflexivity.
  - reflexivity.
  - vm_compute. discriminate.
  - reflexivity.
  - exact H.
Defined.

Example tslot_lock_score :
  option_map score (lock_piece alternating_shuffle tslot_state) = Some 200.
Proof. reflexivity. Qed.

(** Hard-dropping the T of [tslot_state], which cannot fall, keeps its
    ['rotate'] tag and scores the mini single. *)
Example tslot_hard_drop :
  option_map snd (hard_drop_fall tslot_state) = Some 0
  /\ option_map score (hard_drop alternating_shuffle tslot_state) = Some 200.
Proof. split; reflexivity. Qed.

Lemma back_to_back_tetris_scores_1200_witness :
  lock_and_clear well_state
  = (fst (fst (lock_and_clear well_state)), 4, [18%nat; 19%nat; 20%nat; 21%nat])
  /\ exists g', lock_piece alternating_shuffle well_state = Some g'
       /\ combo g' = (if 0 <=? combo well_state then combo well_state + 1 else 0)
       /\ score g' = score well_state
                     + (drop_distance_soft well_state * 1
                        + drop_distance_hard well_state * 2)
                     + (1200 + 50 * combo g')
       /\ b2b g' = true.
Proof.
  split; [reflexivity|].
  destruct (back_to_back_tetris_scores_1200 alternating_shuffle alternating_shuffle_perm
              well_state (fst (fst (lock_and_clear well_state))) 4
              [18%nat; 19%nat; 20%nat; 21%nat])
    as (_ & _ & H).
  - discriminate.
  - unfold valid_rot. simpl. lia.
  - reflexivity.
  - reflexivity.
  - reflexivity.
  - reflexivity.
  - exact H.
Defined.

Example well_lock_score :
  option_map score (lock_piece alternating_shuffle well_state) = Some 1200.
Proof. reflexivity. Qed.

Lemma hard_drop_credit_witness :
  exists g1 m, hard_drop_fall spawned_T = Some (g1, m) /\ 0 <= m
    /\ y (cur g1) = y (cur spawned_T) + m /\ on_ground g1 = true
    /\ drop_distance_hard g1 = drop_distance_hard spawned_T + m
    /\ drop_distance_soft g1 = drop_distance_soft spawned_T
    /\ score g1 = score spawned_T
    /\ (forall g2 cleared idx, lock_and_clear g1 = (g2, cleared, idx) ->
          score g2 = score spawned_T + (drop_distance_soft spawned_T * 1
                                + (drop_distance_hard spawned_T + m) * 2)
          /\ drop_distance_soft g2 = 0 /\ drop_distance_hard g2 = 0)
    /\ exists g3, hard_drop alternating_shuffle spawned_T = Some g3
         /\ drop_distance_soft g3 = 0 /\ drop_distance_hard g3 = 0.
Proof.
  apply (hard_drop_credit alternating_shuffle alternating_shuffle_perm spawned_T).
  - unfold valid_rot. simpl. lia.
  - discriminate.
Defined.

Example spawned_T_falls : hard_drop_fall spawned_T = Some (fallen_T, 21).
Proof. vm_compute. reflexivity. Qed.

(** From the spawn row of an empty board a T piece falls 21 cells; the
    pending distance is then 21, not 42, and the lock scores 42, not 84. *)
Lemma hard_drop_credit_is_one_per_cell :
  hard_drop_fall spawned_T = Some (fallen_T, 21)
  /\ drop_distance_hard fallen_T = drop_distance_hard spawned_T + 21
  /\ option_map score (hard_drop alternating_shuffle spawned_T) = Some 42
  /\ ~ credit_two_per_cell spawned_T.
Proof.
  split; [exact spawned_T_falls|]. split; [reflexivity|].
  split; [vm_compute; reflexivity|].
  intros H. specialize (H fallen_T 21 spawned_T_falls).
  vm_compute in H. discriminate H.
Qed.

Lemma hard_drop_travel_drops_rotate_tag_witness :
  exists g1 m, hard_drop_fall spawned_T = Some (g1, m) /\ 0 <= m
    /\ (0 < m ->
        last_action (cur g1) = Some move
        /\ (forall b n, is_tspin b (cur g1) n (last_action (cur g1))
                        = Some (false, false))
        /\ (forall n lt, fst (classify false false n) = Some lt ->
              lt = single \/ lt = double \/ lt = triple \/ lt = tetris))
    /\ (m = 0 -> cur g1 = cur spawned_T
                 /\ last_action (cur g1) = last_action (cur spawned_T)).
Proof.
  apply (hard_drop_travel_drops_rotate_tag spawned_T).
  unfold valid_rot. simpl. lia.
Defined.

(** ** The board between locks *)

Lemma lock_wf (b : Board) (p : Piece) : wf_board b -> wf_board (lock b p).
Proof.
  unfold wf_board, lock. cbn [grid].
  generalize (grid b) as g. generalize (cells p) as cs.
  induction cs as [|[cx cy] cs IH]; intros g Hwf; simpl; [exact Hwf|].
  apply IH. unfold lock_cell.
  destruct ((0 <=? cy) && (cy <? ROWS) && (0 <=? cx) && (cx <? COLS)); [|exact Hwf].
  destruct Hwf as [Hl Hr]. split.
  - rewrite length_alter. exact Hl.
  - apply Forall_alter; [exact Hr|].
    intros r _ Hlen. rewrite length_insert. exact Hlen.
Qed.

Lemma empty_row_not_full : row_full empty_row = false.
Proof. reflexivity. Qed.

Lemma clear_lines_grid (b : Board) :
  wf_board b ->
  grid (snd (clear_lines b))
  = replicate (length (full_rows (grid b))) empty_row
    ++ List.filter (fun r => negb (row_full r)) (grid b)
  /\ length (grid (snd (clear_lines b))) = Z.to_nat ROWS.
Proof.
  intros [Hlen _].
  assert (Hloop : foldl clear_step (grid b) (full_rows (grid b))
                  = replicate (length (full_rows (grid b))) empty_row
                    ++ List.filter (fun r => negb (row_full r)) (grid b)).
  { rewrite ClearLines.full_rows_full_from by exact Hlen.
    exact (ClearLines.clear_loop (grid b) []). }
  unfold clear_lines. cbn [snd grid]. rewrite Hloop. split; [reflexivity|].
  rewrite length_app, length_replicate.
  rewrite ClearLines.full_rows_full_from by exact Hlen.
  rewrite full_from_filter_length. exact Hlen.
Qed.

(** [clear_lines] leaves no full row. *)
Lemma clear_lines_no_full_rows (b : Board) :
  wf_board b -> no_full_rows (snd (clear_lines b)).
Proof.
  intros Hwf. destruct (clear_lines_grid b Hwf) as [Hgrid Hlen].
  unfold no_full_rows.
  destruct (full_rows (grid (snd (clear_lines b)))) as [|i l] eqn:E; [reflexivity|].
  exfalso.
  assert (Hi : i ∈ full_rows (grid (snd (clear_lines b)))) by (rewrite E; now left).
  apply full_rows_elem in Hi. destruct Hi as [Hlt Hfull].
  unfold row_at in Hfull.
  destruct (grid (snd (clear_lines b)) !! i) as [r|] eqn:Hr.
  2:{ apply lookup_ge_None in Hr. lia. }
  assert (Hin : r ∈ grid (snd (clear_lines b))) by (eapply list_elem_of_lookup_2; exact Hr).
  rewrite Hgrid in Hin. apply elem_of_app in Hin. destruct Hin as [Hin | Hin].
  - apply elem_of_replicate in Hin. destruct Hin as [-> _].
    rewrite empty_row_not_full in Hfull. discriminate.
  - apply list_elem_of_In, List.filter_In in Hin. destruct Hin as [_ Hn].
    rewrite Hfull in Hn. discriminate.
Qed.

(** The board that a lock leaves has no full row: every lock meets a board
    without full rows. *)
Lemma lock_and_clear_no_full_rows (g g1 : Game) (cleared : Z) (idx : list nat) :
  wf_board (board g) ->
  lock_and_clear g = (g1, cleared, idx) -> no_full_rows (board g1).
Proof.
  intros Hwf Hlc.
  pose proof (lock_and_clear_spec _ _ _ _ Hlc) as (Hcl & _).
  pose proof (clear_lines_no_full_rows _ (lock_wf (board g) (cur g) Hwf)) as H.
  rewrite Hcl in H. exact H.
Qed.

(** * Further properties *)

(** ** Collision, cells and locking, cell by cell *)

Lemma collide_cells_iff (b : Board) (cs : list (Z * Z)) :
  collide_cells b cs = true <->
  exists c, c ∈ cs /\ 0 <= snd c
            /\ (inside (fst c) (snd c) = false
                \/ nonempty (grid_at (grid b) (fst c) (snd c)) = true).
Proof.
  induction cs as [|[cx cy] cs IH]; simpl.
  - split; [discriminate | intros (c & Hc & _); inversion Hc].
  - destruct (cy <? 0) eqn:Ey.
    + rewrite IH. apply Z.ltb_lt in Ey. split.
      * intros (c & Hc & H). exists c. split; [now right | exact H].
      * intros (c & Hc & Hy & H). apply elem_of_cons in Hc.
        destruct Hc as [-> | Hc]; [simpl in Hy; lia|].
        exists c. split; [exact Hc|]. split; assumption.
    + apply Z.ltb_ge in Ey.
      destruct (negb (inside cx cy) || nonempty (grid_at (grid b) cx cy)) eqn:E.
      * split; [intros _ | reflexivity].
        exists (cx, cy). split; [now left|]. split; [exact Ey|]. simpl.
        apply orb_true_iff in E. destruct E as [E | E]; [left | right; exact E].
        apply negb_true_iff. exact E.
      * rewrite IH. apply orb_false_iff in E. destruct E as [E1 E2].
        apply negb_false_iff in E1. split.
        -- intros (c & Hc & H). exists c. split; [now right | exact H].
        -- intros (c & Hc & Hy & H). apply elem_of_cons in Hc.
           destruct Hc as [-> | Hc].
           ++ simpl in H. destruct H as [H | H]; congruence.
           ++ exists c. split; [exact Hc|]. split; assumption.
Qed.

(** X1.  A piece collides exactly when one of its cells at row 0 or below
    lies left of column 0, right of the last column, under the last row,
    or on a locked cell; cells above the grid never count. *)
Theorem collide_iff (b : Board) (p : Piece) :
  collide b p = true <->
  exists cx cy, (cx, cy) ∈ cells p /\ 0 <= cy
    /\ (cx < 0 \/ COLS <= cx \/ ROWS <= cy
        \/ nonempty (grid_at (grid b) cx cy) = true).
Proof.
  unfold collide. rewrite collide_cells_iff. split.
  - intros ([cx cy] & Hc & Hy & H). exists cx, cy. simpl in *.
    split; [exact Hc|]. split; [exact Hy|].
    destruct H as [H | H]; [|tauto].
    unfold inside in H. rewrite !andb_false_iff in H.
    rewrite Z.leb_gt, !Z.ltb_ge in H. lia.
  - intros (cx & cy & Hc & Hy & H). exists (cx, cy). simpl.
    split; [exact Hc|]. split; [exact Hy|].
    destruct (inside cx cy) eqn:E; [|now left]. right.
    unfold inside in E. rewrite !andb_true_iff in E.
    rewrite Z.leb_le, !Z.ltb_lt in E.
    destruct H as [H | [H | [H | H]]]; [lia | lia | lia | exact H].
Qed.

Lemma cells_offsets (p : Piece) :
  cells p = shift (x p) (y p) <$> offsets_of (shape p).
Proof.
  unfold cells, offsets_of. generalize (seq 0 16) as l.
  induction l as [|i l IH]; [reflexivity|].
  cbn [foldr]. destruct (nth i (shape p) false); [rewrite fmap_cons|]; rewrite IH; reflexivity.
Qed.

Lemma offsets_four (k : Kind) (r : nat) :
  (r < 4)%nat ->
  length (offsets_of (nth r (SHAPES k) [])) = 4%nat
  /\ NoDup (offsets_of (nth r (SHAPES k) [])).
Proof.
  intros Hr.
  destruct r as [|[|[|[|r]]]]; [| | | |lia];
    destruct k; (split; [vm_compute; reflexivity|]);
    apply (bool_decide_unpack _); vm_compute; exact I.
Qed.

Lemma shift_inj (dx dy : Z) (a b : Z * Z) : shift dx dy a = shift dx dy b -> a = b.
Proof.
  destruct a, b. unfold shift. simpl. intros H. injection H as H1 H2.
  f_equal; lia.
Qed.

(** X2.  In each of the four rotation states a piece has exactly four
    cells, all different, inside the 4x4 box at its anchor. *)
Theorem cells_four_in_box (p : Piece) :
  valid_rot p ->
  length (cells p) = 4%nat
  /\ NoDup (cells p)
  /\ forall cx cy, (cx, cy) ∈ cells p ->
        x p <= cx < x p + 4 /\ y p <= cy < y p + 4.
Proof.
  intros Hr.
  destruct (offsets_four (kind p) (Z.to_nat (rot p))) as [Hl Hn].
  { unfold valid_rot in Hr. lia. }
  fold (shape p) in Hl, Hn.
  split; [|split].
  - rewrite cells_offsets, length_fmap. exact Hl.
  - rewrite cells_offsets. apply NoDup_fmap_2; [|exact Hn].
    intros a b. apply shift_inj.
  - intros cx cy Hc. apply cells_in in Hc.
    destruct Hc as (i & Hi & _ & Heq).
    assert (Hm : (Nat.modulo i 4 < 4)%nat) by (apply Nat.mod_upper_bound; lia).
    assert (Hd : (Nat.div i 4 < 4)%nat) by (apply Nat.Div0.div_lt_upper_bound; lia).
    revert Heq Hm Hd. generalize (Nat.modulo i 4) (Nat.div i 4). intros m d Heq Hm Hd.
    injection Heq as -> ->. lia.
Qed.

Lemma cells_four_in_box_witness :
  length (cells (new_Piece kL)) = 4%nat.
Proof.
  apply (cells_four_in_box (new_Piece kL)). unfold valid_rot. simpl. lia.
Defined.

Lemma lock_cell_wf (k : Kind) (g : Grid) (c : Z * Z) :
  wf_board {| grid := g |} -> wf_board {| grid := lock_cell k g c |}.
Proof.
  unfold wf_board. cbn [grid]. destruct c as [ax ay]. unfold lock_cell.
  destruct ((0 <=? ay) && (ay <? ROWS) && (0 <=? ax) && (ax <? COLS)); [|tauto].
  intros [Hl Hr]. split.
  - rewrite length_alter. exact Hl.
  - apply Forall_alter; [exact Hr|].
    intros r _ Hlen. rewrite length_insert. exact Hlen.
Qed.

Lemma grid_at_lock_cell (k : Kind) (g : Grid) (c : Z * Z) (cx cy : Z) :
  wf_board {| grid := g |} ->
  0 <= cx < COLS -> 0 <= cy < ROWS ->
  grid_at (lock_cell k g c) cx cy
  = if decide (c = (cx, cy)) then Some k else grid_at g cx cy.
Proof.
  unfold wf_board. cbn [grid]. intros [Hl Hr] Hx Hy.
  destruct c as [ax ay]. unfold lock_cell.
  destruct ((0 <=? ay) && (ay <? ROWS) && (0 <=? ax) && (ax <? COLS)) eqn:E.
  - rewrite !andb_true_iff, !Z.leb_le, !Z.ltb_lt in E.
    unfold grid_at.
    destruct (decide (Z.to_nat ay = Z.to_nat cy)) as [Ey | Ey].
    + rewrite <- Ey, list_lookup_alter_eq.
      destruct (g !! Z.to_nat ay) as [r|] eqn:Er; cbn [fmap option_fmap option_map].
      2:{ apply lookup_ge_None in Er. unfold ROWS in *. lia. }
      assert (Hlr : length r = Z.to_nat COLS).
      { rewrite Forall_forall in Hr. apply Hr.
        eapply list_elem_of_lookup_2. exact Er. }
      destruct (decide (Z.to_nat ax = Z.to_nat cx)) as [Ex | Ex].
      * rewrite <- Ex, list_lookup_insert_eq by (unfold COLS in *; lia).
        rewrite decide_True; [reflexivity|]. f_equal; lia.
      * rewrite list_lookup_insert_ne by exact Ex.
        rewrite decide_False; [reflexivity|]. intros H. injection H as -> ->. lia.
    + rewrite list_lookup_alter_ne by exact Ey.
      rewrite decide_False; [reflexivity|]. intros H. injection H as -> ->. lia.
  - rewrite decide_False; [reflexivity|]. intros H. injection H as -> ->.
    rewrite !andb_false_iff, !Z.leb_gt, !Z.ltb_ge in E. lia.
Qed.

Lemma grid_at_lock_cells (k : Kind) (cs : list (Z * Z)) (g : Grid) (cx cy : Z) :
  wf_board {| grid := g |} ->
  0 <= cx < COLS -> 0 <= cy < ROWS ->
  grid_at (foldl (lock_cell k) g cs) cx cy
  = if decide ((cx, cy) ∈ cs) then Some k else grid_at g cx cy.
Proof.
  revert g. induction cs as [|c cs IH]; intros g Hwf Hx Hy; cbn [foldl].
  - rewrite decide_False; [reflexivity|]. intros H. inversion H.
  - rewrite IH by (try apply lock_cell_wf; assumption).
    rewrite grid_at_lock_cell by assumption.
    destruct (decide ((cx, cy) ∈ cs)) as [Hin | Hin].
    + rewrite decide_True; [reflexivity | now right].
    + destruct (decide (c = (cx, cy))) as [-> | Hc].
      * rewrite decide_True; [reflexivity | now left].
      * rewrite decide_False; [reflexivity|].
        intros H. apply elem_of_cons in H. destruct H as [H | H]; congruence.
Qed.

(** X3.  On a ROWS x COLS board, [lock] writes the kind of the piece into
    each of its cells inside the grid and leaves every other cell of the
    grid as it was; the board keeps its size. *)
Theorem lock_writes_cells (b : Board) (p : Piece) (cx cy : Z) :
  wf_board b ->
  0 <= cx < COLS -> 0 <= cy < ROWS ->
  grid_at (grid (lock b p)) cx cy
  = (if decide ((cx, cy) ∈ cells p) then Some (kind p) else grid_at (grid b) cx cy)
  /\ wf_board (lock b p).
Proof.
  intros Hwf Hx Hy. split; [|apply lock_wf; exact Hwf].
  unfold lock. cbn [grid]. apply grid_at_lock_cells; assumption.
Qed.

Lemma lock_writes_cells_witness :
  grid_at (grid (lock new_Board (T_at 3 20 0 None))) 4 20 = Some kT
  /\ wf_board (lock new_Board (T_at 3 20 0 None)).
Proof.
  apply (lock_writes_cells new_Board (T_at 3 20 0 None) 4 20).
  - apply new_Board_wf.
  - unfold COLS. lia.
  - unfold ROWS. lia.
Defined.

(** X4.  [clear_lines] is idempotent on a ROWS x COLS board: called again
    on its own result it finds no full row, returns the count 0 and no
    index, and leaves the grid as it is. *)
Theorem clear_lines_twice (b : Board) :
  wf_board b ->
  clear_lines (snd (clear_lines b)) = (0, [], snd (clear_lines b)).
Proof.
  intros Hwf. pose proof (clear_lines_no_full_rows b Hwf) as Hn.
  unfold no_full_rows in Hn.
  destruct (snd (clear_lines b)) as [g']. cbn [grid] in Hn.
  unfold clear_lines at 1. cbn [grid]. rewrite Hn. reflexivity.
Qed.

Lemma clear_lines_twice_witness :
  clear_lines (snd (clear_lines bottom_full)) = (0, [], snd (clear_lines bottom_full)).
Proof. apply (clear_lines_twice bottom_full). apply bottom_full_wf. Defined.

(** ** Rotation: what a success means *)

Lemma kick_180_success (b : Board) (ks : list (Z * Z)) (p p' : Piece) :
  kick_180 b p ks = (p', true) ->
  exists pre dx dy post, ks = pre ++ (dx, dy) :: post
    /\ (forall e, e ∈ pre -> collide b (set_xy p (x p + fst e) (y p + snd e)) = true)
    /\ collide b (set_xy p (x p + dx) (y p + dy)) = false
    /\ p' = set_last_action (set_xy p (x p + dx) (y p + dy)) (Some rotate).
Proof.
  revert p. induction ks as [|[dx dy] ks IH]; intros p; cbn [kick_180].
  - discriminate.
  - destruct (collide b (set_xy p (x p + dx) (y p + dy))) eqn:Ec; cbn [negb].
    + intros H.
      assert (Eq : set_xy (set_xy p (x p + dx) (y p + dy))
                     (x (set_xy p (x p + dx) (y p + dy)) - dx)
                     (y (set_xy p (x p + dx) (y p + dy)) - dy) = p).
      { apply Piece_ext; cbn [kind rot x y last_action lock_resets set_xy];
          try reflexivity; lia. }
      rewrite Eq in H. apply IH in H.
      destruct H as (pre & ex & ey & post & -> & Hpre & Hc & ->).
      exists ((dx, dy) :: pre), ex, ey, post. split; [reflexivity|].
      split; [|split; [exact Hc | reflexivity]].
      intros e He. apply elem_of_cons in He. destruct He as [-> | He].
      * exact Ec.
      * apply Hpre. exact He.
    + intros H. injection H as <-.
      exists [], dx, dy, ks. split; [reflexivity|].
      split; [intros e He; inversion He|]. split; [exact Ec | reflexivity].
Qed.

Lemma kick_srs_success (b : Board) (ks : list (Z * Z)) (ox oy : Z) (p p' : Piece) :
  kick_srs b p ox oy ks = (p', true) ->
  exists pre dx dy post, ks = pre ++ (dx, dy) :: post
    /\ (forall e, e ∈ pre -> collide b (set_xy p (ox + fst e) (oy + snd e)) = true)
    /\ collide b (set_xy p (ox + dx) (oy + dy)) = false
    /\ p' = set_last_action (set_xy p (ox + dx) (oy + dy)) (Some rotate).
Proof.
  revert p. induction ks as [|[dx dy] ks IH]; intros p; cbn [kick_srs].
  - discriminate.
  - destruct (collide b (set_xy p (ox + dx) (oy + dy))) eqn:Ec; cbn [negb].
    + intros H. apply IH in H.
      destruct H as (pre & ex & ey & post & -> & Hpre & Hc & ->).
      exists ((dx, dy) :: pre), ex, ey, post. split; [reflexivity|].
      split; [|split; [exact Hc | reflexivity]].
      intros e He. apply elem_of_cons in He. destruct He as [-> | He].
      * exact Ec.
      * apply (Hpre e He).
    + intros H. injection H as <-.
      exists [], dx, dy, ks. split; [reflexivity|].
      split; [intros e He; inversion He|]. split; [exact Ec | reflexivity].
Qed.

(** A successful rotation returns a piece tagged ['rotate'] that does
    not collide. *)
Lemma rotate_success_tag (b : Board) (p p' : Piece) (dir : Z) :
  rotate_with_kick b p dir = (p', true) ->
  last_action p' = Some rotate /\ collide b p' = false.
Proof.
  unfold rotate_with_kick.
  destruct (Kind_eqb (kind p) kO && ((dir =? 1) || (dir =? -1))).
  - destruct (collide b (set_rot p ((rot p + dir) mod 4))) eqn:Ec; [discriminate|].
    intros H. injection H as <-. split; [reflexivity|].
    rewrite (collide_cells_eq b _ _ (cells_set_last_action _ _)). exact Ec.
  - destruct (dir =? 2).
    + destruct (kick_180 b _ _) as [p2 ok] eqn:Ek.
      destruct ok; [|discriminate]. intros H. injection H as <-.
      apply kick_180_success in Ek.
      destruct Ek as (pre & dx & dy & post & _ & _ & Hc & ->).
      split; [reflexivity|].
      rewrite (collide_cells_eq b _ _ (cells_set_last_action _ _)). exact Hc.
    + destruct (kick_srs b _ _ _ _) as [p2 ok] eqn:Ek.
      destruct ok; [|discriminate]. intros H. injection H as <-.
      apply kick_srs_success in Ek.
      destruct Ek as (pre & dx & dy & post & _ & _ & Hc & ->).
      split; [reflexivity|].
      rewrite (collide_cells_eq b _ _ (cells_set_last_action _ _)). exact Hc.
Qed.

(** X5.  A rotation that reports success has taken the first offset of
    its candidate list at which the turned piece fits: the earlier
    offsets collide, the piece returned does not, its rotation state is
    the old one plus [dir] modulo 4, it is moved by that offset, tagged
    ['rotate'], and is otherwise the piece given. *)
Theorem rotate_success_first_fit (b : Board) (p p' : Piece) (dir : Z) :
  rotate_with_kick b p dir = (p', true) ->
  exists pre dx dy post,
    kick_candidates p dir = pre ++ (dx, dy) :: post
    /\ (forall e, e ∈ pre -> collide b (turned p dir (fst e) (snd e)) = true)
    /\ collide b p' = false
    /\ kind p' = kind p /\ rot p' = (rot p + dir) mod 4
    /\ x p' = x p + dx /\ y p' = y p + dy
    /\ last_action p' = Some rotate /\ lock_resets p' = lock_resets p.
Proof.
  unfold rotate_with_kick, kick_candidates, turned.
  destruct (Kind_eqb (kind p) kO && ((dir =? 1) || (dir =? -1))).
  - destruct (collide b (set_rot p ((rot p + dir) mod 4))) eqn:Ec; [discriminate|].
    intros H. injection H as <-.
    exists [], 0, 0, []. split; [reflexivity|].
    split; [intros e He; inversion He|].
    split; [rewrite (collide_cells_eq b _ _ (cells_set_last_action _ _)); exact Ec|].
    cbn [kind rot x y last_action lock_resets set_rot set_last_action].
    conjs; try reflexivity; lia.
  - destruct (dir =? 2) eqn:E2.
    + apply Z.eqb_eq in E2. subst dir.
      destruct (kick_180 b _ _) as [p2 ok] eqn:Ek.
      destruct ok; [|discriminate]. intros H. injection H as <-.
      apply kick_180_success in Ek.
      destruct Ek as (pre & dx & dy & post & -> & Hpre & Hc & ->).
      exists pre, dx, dy, post. split; [reflexivity|].
      split; [exact Hpre|].
      split; [rewrite (collide_cells_eq b _ _ (cells_set_last_action _ _)); exact Hc|].
      cbn [kind rot x y last_action lock_resets set_rot set_xy set_last_action].
      conjs; reflexivity.
    + destruct (kick_srs b _ _ _ _) as [p2 ok] eqn:Ek.
      destruct ok; [|discriminate]. intros H. injection H as <-.
      apply kick_srs_success in Ek.
      destruct Ek as (pre & dx & dy & post & -> & Hpre & Hc & ->).
      exists pre, dx, dy, post. split; [reflexivity|].
      split; [exact Hpre|].
      split; [rewrite (collide_cells_eq b _ _ (cells_set_last_action _ _)); exact Hc|].
      cbn [kind rot x y last_action lock_resets set_rot set_xy set_last_action].
      conjs; reflexivity.
Qed.

Lemma rotate_success_first_fit_witness :
  exists pre dx dy post,
    kick_candidates walled_T 1 = pre ++ (dx, dy) :: post
    /\ (forall e, e ∈ pre -> collide new_Board (turned walled_T 1 (fst e) (snd e)) = true)
    /\ collide new_Board (fst (rotate_with_kick new_Board walled_T 1)) = false
    /\ kind (fst (rotate_with_kick new_Board walled_T 1)) = kind walled_T
    /\ rot (fst (rotate_with_kick new_Board walled_T 1)) = (rot walled_T + 1) mod 4
    /\ x (fst (rotate_with_kick new_Board walled_T 1)) = x walled_T + dx
    /\ y (fst (rotate_with_kick new_Board walled_T 1)) = y walled_T + dy
    /\ last_action (fst (rotate_with_kick new_Board walled_T 1)) = Some rotate
    /\ lock_resets (fst (rotate_with_kick new_Board walled_T 1)) = lock_resets walled_T.
Proof.
  apply (rotate_success_first_fit new_Board walled_T _ 1).
  vm_compute. reflexivity.
Defined.

Example walled_T_kicked :
  x (fst (rotate_with_kick new_Board walled_T 1)) = 0.
Proof. vm_compute. reflexivity. Qed.

Lemma kick_candidates_head (p : Piece) (dir : Z) :
  valid_rot p -> exists rest, kick_candidates p dir = (0, 0) :: rest.
Proof.
  unfold valid_rot, kick_candidates. intros Hr.
  destruct (Kind_eqb (kind p) kO && ((dir =? 1) || (dir =? -1))); [eexists; reflexivity|].
  destruct (dir =? 2); [eexists; reflexivity|].
  assert (Hm : 0 <= (rot p + dir) mod 4 < 4) by (apply Z.mod_pos_bound; lia).
  revert Hm. generalize ((rot p + dir) mod 4) as t. intros t Ht.
  assert (E : rot p = 0 \/ rot p = 1 \/ rot p = 2 \/ rot p = 3) by lia.
  assert (F : t = 0 \/ t = 1 \/ t = 2 \/ t = 3) by lia.
  destruct (Kind_eqb (kind p) kI);
    destruct E as [-> | [-> | [-> | ->]]];
    destruct F as [-> | [-> | [-> | ->]]]; eexists; reflexivity.
Qed.

Lemma shape_ext (p q : Piece) : kind p = kind q -> rot p = rot q -> shape p = shape q.
Proof. unfold shape. intros -> ->. reflexivity. Qed.

(** A rotation whose turned piece fits where the piece stands succeeds
    there, without a kick. *)
Lemma rotate_in_place (b : Board) (p : Piece) (dir : Z) :
  valid_rot p ->
  collide b (set_rot p ((rot p + dir) mod 4)) = false ->
  exists p', rotate_with_kick b p dir = (p', true)
    /\ kind p' = kind p /\ rot p' = (rot p + dir) mod 4
    /\ x p' = x p /\ y p' = y p /\ last_action p' = Some rotate
    /\ lock_resets p' = lock_resets p.
Proof.
  intros Hr Hc.
  assert (Hc0 : collide b (set_xy (set_rot p ((rot p + dir) mod 4))
                             (x p + 0) (y p + 0)) = false).
  { rewrite <- Hc. apply collide_cells_eq. apply cells_ext;
      cbn [x y set_xy set_rot]; [reflexivity | lia | lia]. }
  destruct (kick_candidates_head p dir Hr) as [rest Hk].
  unfold kick_candidates in Hk. unfold rotate_with_kick.
  destruct (Kind_eqb (kind p) kO && ((dir =? 1) || (dir =? -1))).
  - cbv zeta. rewrite Hc. eexists. split; [reflexivity|].
    cbn [kind rot x y last_action lock_resets set_rot set_last_action].
    conjs; reflexivity.
  - destruct (dir =? 2) eqn:E2.
    + apply Z.eqb_eq in E2. subst dir. cbv zeta.
      rewrite (kick_180_first b (set_rot p ((rot p + 2) mod 4)) 0 0 _ Hc0).
      eexists. split; [reflexivity|].
      cbn [kind rot x y last_action lock_resets set_rot set_xy set_last_action].
      conjs; try reflexivity; lia.
    + cbv zeta. rewrite Hk. cbn [kick_srs].
      cbn [x y set_rot] in Hc0. rewrite Hc0. cbn [negb].
      eexists. split; [reflexivity|].
      cbn [kind rot x y last_action lock_resets set_rot set_xy set_last_action].
      conjs; try reflexivity; lia.
Qed.

(** X6.  Where the piece fits both as it stands and turned clockwise, a
    clockwise rotation followed by a counterclockwise one succeeds twice
    and brings back the position and the rotation state. *)
Theorem rotate_cw_ccw_round_trip (b : Board) (p : Piece) :
  valid_rot p ->
  collide b p = false ->
  collide b (set_rot p ((rot p + 1) mod 4)) = false ->
  exists p1 p2,
    rotate_with_kick b p 1 = (p1, true)
    /\ rotate_with_kick b p1 (-1) = (p2, true)
    /\ kind p2 = kind p /\ rot p2 = rot p /\ x p2 = x p /\ y p2 = y p.
Proof.
  intros Hr Hc Hc1.
  destruct (rotate_in_place b p 1 Hr Hc1) as (p1 & H1 & Hk1 & Hr1 & Hx1 & Hy1 & _).
  assert (Hv1 : valid_rot p1).
  { unfold valid_rot. rewrite Hr1. apply Z.mod_pos_bound. lia. }
  assert (Hback : (rot p1 + -1) mod 4 = rot p).
  { rewrite Hr1.
    replace ((rot p + 1) mod 4 + -1) with ((rot p + 1) mod 4 - 1) by lia.
    apply mod4_back. exact Hr. }
  destruct (rotate_in_place b p1 (-1) Hv1) as (p2 & H2 & Hk2 & Hr2 & Hx2 & Hy2 & _).
  { rewrite <- Hc. apply collide_cells_eq. apply cells_ext.
    - apply shape_ext; cbn [kind rot set_rot]; [exact Hk1 | exact Hback].
    - exact Hx1.
    - exact Hy1. }
  exists p1, p2. split; [exact H1|]. split; [exact H2|].
  rewrite Hk2, Hr2, Hx2, Hy2, Hk1, Hx1, Hy1, Hback. conjs; reflexivity.
Qed.

Lemma rotate_cw_ccw_round_trip_witness :
  exists p1 p2,
    rotate_with_kick new_Board (T_at 3 5 0 None) 1 = (p1, true)
    /\ rotate_with_kick new_Board p1 (-1) = (p2, true)
    /\ kind p2 = kT /\ rot p2 = 0 /\ x p2 = 3 /\ y p2 = 5.
Proof.
  apply (rotate_cw_ccw_round_trip new_Board (T_at 3 5 0 None)).
  - unfold valid_rot. simpl. lia.
  - vm_compute. reflexivity.
  - vm_compute. reflexivity.
Defined.

(** ** The active piece stays clear of the board *)

Lemma try_rotate_cur (g g' : Game) (dir : Z) (ok : bool) :
  try_rotate g dir = Some (g', ok) ->
  rotate_with_kick (board g) (cur g) dir = (cur g', ok) /\ board g' = board g.
Proof.
  unfold try_rotate.
  destruct (rotate_with_kick (board g) (cur g) dir) as [c1 ok1].
  destruct ok1.
  - cbv zeta.
    destruct (timer_running (with_cur g c1)
              && (lock_reset_count (with_cur g c1) <? LOCK_RESETS_MAX));
      (destruct (compute_ghost_y _) as [gy|]; [|discriminate];
       cbn [mbind option_bind]; intros H; injection H as <- <-;
       split; reflexivity).
  - intros H. injection H as <- <-. split; reflexivity.
Qed.

(** X7.  Moves and rotations keep the active piece off the locked cells:
    if it does not collide before a run of move and rotate intents, it
    does not collide after it, and the board is the same. *)
Theorem run_keeps_piece_clear (l : list Intent) (g g' : Game) (n : Z) :
  valid_rot (cur g) ->
  collide (board g) (cur g) = false ->
  run l g = Some (g', n) ->
  collide (board g') (cur g') = false /\ board g' = board g /\ valid_rot (cur g').
Proof.
  revert g n. induction l as [|i l IH]; intros g n Hr Hc; cbn [run].
  - intros H. injection H as <- _. split; [exact Hc|]. split; [reflexivity | exact Hr].
  - destruct (step g i) as [g1|] eqn:Es; cbn [mbind option_bind]; [|discriminate].
    assert (H1 : collide (board g1) (cur g1) = false /\ board g1 = board g
                 /\ valid_rot (cur g1)).
    { destruct i as [dx dy | dir]; cbn [step] in Es.
      - injection Es as <-.
        destruct (try_move g dx dy) as [g2 ok] eqn:Em. cbn [fst].
        pose proof (try_move_frame _ _ _ _ _ Em) as (Hb&_&_&_&_&_&_&_&Hk&Hrot).
        split; [|split; [exact Hb | unfold valid_rot in *; rewrite Hrot; exact Hr]].
        rewrite Hb. destruct ok.
        + pose proof (try_move_accepted _ _ _ _ Em) as (Hcol & Hx & Hy & _).
          rewrite <- Hcol. apply collide_cells_eq. apply cells_ext.
          * apply shape_ext; assumption.
          * exact Hx.
          * exact Hy.
        + pose proof (try_move_rejected _ _ _ _ Em) as (_ & -> & _). exact Hc.
      - destruct (try_rotate g dir) as [[g2 ok]|] eqn:Et; [|discriminate].
        cbn [mbind option_bind] in Es. injection Es as <-.
        pose proof (try_rotate_cur _ _ _ _ Et) as [Hrot Hb].
        pose proof (rotate_valid (board g) (cur g) dir Hr) as Hv.
        rewrite Hrot in Hv. cbn [fst] in Hv.
        split; [|split; [exact Hb | exact Hv]].
        rewrite Hb. destruct ok.
        + apply rotate_success_tag in Hrot. destruct Hrot as [_ Hcl]. exact Hcl.
        + apply rotate_fail_unchanged in Hrot; [|exact Hr]. rewrite Hrot. exact Hc. }
    destruct H1 as (Hc1 & Hb1 & Hr1).
    destruct (run l g1) as [[g2 m]|] eqn:Er; cbn [option_bind]; [|discriminate].
    intros H. injection H as <- _.
    destruct (IH g1 m Hr1 Hc1 Er) as (Hc2 & Hb2 & Hr2).
    split; [exact Hc2|]. split; [rewrite Hb2; exact Hb1 | exact Hr2].
Qed.

Lemma run_keeps_piece_clear_witness :
  collide (board grounded_T)
          (cur (fst (default (grounded_T, 0)
                       (run [Move 1 0; Rotate 1; Move 0 1; Rotate 2] grounded_T))))
  = false.
Proof.
  destruct (run [Move 1 0; Rotate 1; Move 0 1; Rotate 2] grounded_T)
    as [[g' n]|] eqn:E; [|vm_compute in E; discriminate E].
  destruct (run_keeps_piece_clear [Move 1 0; Rotate 1; Move 0 1; Rotate 2]
              grounded_T g' n) as (Hc & Hb & _).
  - unfold valid_rot. simpl. lia.
  - vm_compute. reflexivity.
  - exact E.
  - cbn [default fst]. rewrite <- Hb. exact Hc.
Defined.

(** ** The ghost row and the drops *)

Lemma ghost_loop_spec (b : Board) (fuel : nat) (p : Piece) (gy : Z) :
  ghost_loop fuel b p = Some gy ->
  y p <= gy
  /\ collide b (set_xy p (x p) (gy + 1)) = true
  /\ forall y', y p < y' <= gy -> collide b (set_xy p (x p) y') = false.
Proof.
  revert p. induction fuel as [|fuel IH]; intros p; cbn [ghost_loop]; [discriminate|].
  destruct (collide b (set_xy p (x p) (y p + 1))) eqn:Ec.
  - intros H. injection H as <-. cbn [y set_xy].
    split; [lia|]. split; [|intros y' Hy'; lia].
    replace (y p + 1 - 1 + 1) with (y p + 1) by lia. exact Ec.
  - intros H. apply IH in H. cbn [x y set_xy] in H.
    destruct H as (Hle & Hcol & Hfree).
    split; [lia|]. split; [exact Hcol|].
    intros y' Hy'. destruct (Z.eq_dec y' (y p + 1)) as [-> | Hne].
    + exact Ec.
    + apply (Hfree y'). lia.
Qed.

Lemma ghost_loop_ext (b : Board) (fuel : nat) (p q : Piece) :
  kind p = kind q -> rot p = rot q -> x p = x q -> y p = y q ->
  ghost_loop fuel b p = ghost_loop fuel b q.
Proof.
  revert p q. induction fuel as [|fuel IH]; intros p q Hk Hr Hx Hy;
    cbn [ghost_loop]; [reflexivity|].
  assert (E : collide b (set_xy p (x p) (y p + 1))
              = collide b (set_xy q (x q) (y q + 1))).
  { apply collide_cells_eq. apply cells_ext; cbn [x y set_xy].
    - apply shape_ext; assumption.
    - exact Hx.
    - rewrite Hy. reflexivity. }
  rewrite E.
  destruct (collide b (set_xy q (x q) (y q + 1))).
  - f_equal. change (y p + 1 - 1 = y q + 1 - 1). rewrite Hy. reflexivity.
  - apply IH; [exact Hk | exact Hr | exact Hx |].
    change (y p + 1 = y q + 1). rewrite Hy. reflexivity.
Qed.

(** The fall of a hard drop ends on the row that the ghost loop finds. *)
Lemma hard_drop_loop_ghost (fuel : nat) (g : Game) (dist gy : Z) :
  ghost_loop fuel (board g) (cur g) = Some gy ->
  exists g1, hard_drop_loop fuel g dist = Some (g1, dist + (gy - y (cur g)))
             /\ y (cur g1) = gy.
Proof.
  revert g dist. induction fuel as [|fuel IH]; intros g dist;
    cbn [ghost_loop hard_drop_loop]; [discriminate|].
  destruct (try_move g 0 1) as [g1 ok] eqn:Em.
  pose proof (try_move_frame _ _ _ _ _ Em) as (Hb&_&_&_&_&_&_&_&Hk&Hrot).
  assert (E : collide (board g) (set_xy (cur g) (x (cur g)) (y (cur g) + 1))
              = collide (board g) (set_xy (cur g) (x (cur g) + 0) (y (cur g) + 1))).
  { apply collide_cells_eq. apply cells_ext; cbn [x y set_xy];
      [reflexivity | lia | reflexivity]. }
  rewrite E. destruct ok.
  - pose proof (try_move_accepted _ _ _ _ Em) as (Hcol & Hx & Hy & _).
    rewrite Hcol. intros Hg.
    rewrite (ghost_loop_ext (board g) fuel _ (cur g1)) in Hg;
      cbn [kind rot x y set_xy]; [| congruence | congruence | lia | lia].
    rewrite <- Hb in Hg.
    destruct (IH g1 (dist + 1) Hg) as (g2 & Hloop & Hy2).
    exists g2. split; [|exact Hy2].
    rewrite Hloop. f_equal. f_equal. lia.
  - pose proof (try_move_rejected _ _ _ _ Em) as (Hcol & Hcur & _).
    rewrite Hcol. cbn [y set_xy]. intros H. injection H as <-.
    exists g1. split; [f_equal; f_equal; lia|]. rewrite Hcur. lia.
Qed.

(** X8.  The ghost row is where a hard drop lands: [compute_ghost_y]
    returns the row that the fall of [hard_drop] reaches; the piece fits
    on every row from its own down to that one and collides one row
    further down. *)
Theorem ghost_is_landing_row (g : Game) :
  valid_rot (cur g) ->
  exists gy g1 m,
    compute_ghost_y g = Some gy
    /\ hard_drop_fall g = Some (g1, m)
    /\ y (cur g1) = gy /\ gy = y (cur g) + m
    /\ collide (board g) (set_xy (cur g) (x (cur g)) (gy + 1)) = true
    /\ forall y', y (cur g) < y' <= gy ->
         collide (board g) (set_xy (cur g) (x (cur g)) y') = false.
Proof.
  intros Hr.
  destruct (compute_ghost_y_total g Hr) as [gy Hgy].
  unfold compute_ghost_y in Hgy.
  rewrite (ghost_loop_ext (board g) _ (clone (cur g)) (cur g)) in Hgy
    by reflexivity.
  destruct (hard_drop_loop_ghost _ g 0 gy Hgy) as (g1 & Hloop & Hy1).
  pose proof (ghost_loop_spec _ _ _ _ Hgy) as (_ & Hcol & Hfree).
  exists gy, (with_drop_distance_hard g1 (drop_distance_hard g1 + (0 + (gy - y (cur g))))),
         (0 + (gy - y (cur g))).
  split.
  { unfold compute_ghost_y.
    rewrite (ghost_loop_ext (board g) _ (clone (cur g)) (cur g)) by reflexivity.
    exact Hgy. }
  split; [unfold hard_drop_fall; rewrite Hloop; reflexivity|].
  split; [exact Hy1|]. split; [lia|]. split; [exact Hcol | exact Hfree].
Qed.

Lemma ghost_is_landing_row_witness :
  exists gy g1 m,
    compute_ghost_y spawned_T = Some gy
    /\ hard_drop_fall spawned_T = Some (g1, m)
    /\ y (cur g1) = gy /\ gy = y (cur spawned_T) + m
    /\ collide (board spawned_T)
         (set_xy (cur spawned_T) (x (cur spawned_T)) (gy + 1)) = true
    /\ forall y', y (cur spawned_T) < y' <= gy ->
         collide (board spawned_T)
           (set_xy (cur spawned_T) (x (cur spawned_T)) y') = false.
Proof.
  apply (ghost_is_landing_row spawned_T). unfold valid_rot. simpl. lia.
Defined.

Example spawned_T_ghost : compute_ghost_y spawned_T = Some 20.
Proof. vm_compute. reflexivity. Qed.

Lemma try_move_rejected_same (g g' : Game) (dx dy : Z) :
  try_move g dx dy = (g', false) -> g' = g.
Proof.
  unfold try_move.
  cbn [cur board with_cur x y set_xy].
  destruct (collide (board g) _).
  - intros H. injection H as <-.
    destruct g as [? ? ? ? c ? ? ? ? ? ? ? ? ? ? ? ? ? ? ? ?].
    destruct c. reflexivity.
  - destruct ((dy =? 0) && timer_running _).
    + destruct (_ <? LOCK_RESETS_MAX); discriminate.
    + discriminate.
Qed.

(** X9.  Soft drops credit one point per cell travelled: after any number
    of soft-drop presses the pending soft-drop distance has grown by the
    number of cells the piece went down, the hard-drop distance and the
    score are untouched, and the lock that follows adds exactly the
    soft-drop distance (plus twice the hard-drop distance) to the score. *)
Theorem soft_drops_credit (n : nat) (g : Game) :
  let g' := fst (soft_drops n g) in
  let k := snd (soft_drops n g) in
  0 <= k <= Z.of_nat n
  /\ y (cur g') = y (cur g) + k /\ x (cur g') = x (cur g)
  /\ drop_distance_soft g' = drop_distance_soft g + k
  /\ drop_distance_hard g' = drop_distance_hard g
  /\ score g' = score g /\ board g' = board g
  /\ score (fst (fst (lock_and_clear g')))
     = score g + ((drop_distance_soft g + k) * 1 + drop_distance_hard g * 2).
Proof.
  cbv zeta.
  assert (H : 0 <= snd (soft_drops n g) <= Z.of_nat n
    /\ y (cur (fst (soft_drops n g))) = y (cur g) + snd (soft_drops n g)
    /\ x (cur (fst (soft_drops n g))) = x (cur g)
    /\ drop_distance_soft (fst (soft_drops n g))
       = drop_distance_soft g + snd (soft_drops n g)
    /\ drop_distance_hard (fst (soft_drops n g)) = drop_distance_hard g
    /\ score (fst (soft_drops n g)) = score g
    /\ board (fst (soft_drops n g)) = board g).
  { revert g. induction n as [|n IH]; intros g.
    - cbn [soft_drops fst snd]. conjs; lia || reflexivity.
    - cbn [soft_drops]. unfold soft_drop.
      destruct (try_move g 0 1) as [g1 ok] eqn:Em.
      pose proof (try_move_frame _ _ _ _ _ Em) as (Hb&_&Hs&_&_&_&Hds&Hdh&_&_).
      destruct ok.
      + pose proof (try_move_accepted _ _ _ _ Em) as (_ & Hx & Hy & _).
        specialize (IH (with_drop_distance_soft g1 (drop_distance_soft g1 + 1))).
        destruct (soft_drops n _) as [g2 k]. cbn [fst snd] in *.
        cbn [cur x y drop_distance_soft drop_distance_hard score board
             with_drop_distance_soft] in IH.
        destruct IH as (Hk & Hy2 & Hx2 & Hs2 & Hh2 & Hsc2 & Hb2).
        rewrite Hy2, Hx2, Hs2, Hh2, Hsc2, Hb2. conjs; lia || congruence.
      + pose proof (try_move_rejected_same _ _ _ _ Em) as ->.
        specialize (IH g).
        destruct (soft_drops n g) as [g2 k]. cbn [fst snd] in *.
        destruct IH as (Hk & Hy2 & Hx2 & Hs2 & Hh2 & Hsc2 & Hb2).
        conjs; lia || assumption. }
  destruct H as (Hk & Hy & Hx & Hs & Hh & Hsc & Hb).
  conjs; try assumption; try lia.
  destruct (lock_and_clear (fst (soft_drops n g))) as [[g2 c] idx] eqn:El.
  pose proof (lock_and_clear_spec _ _ _ _ El) as (_ & _ & _ & Hs2 & _).
  cbn [fst]. rewrite Hs2, Hsc, Hs, Hh. reflexivity.
Qed.

Example soft_drops_spawned_T :
  snd (soft_drops 25 spawned_T) = 21
  /\ drop_distance_soft (fst (soft_drops 25 spawned_T)) = 21.
Proof. split; vm_compute; reflexivity. Qed.

(** ** The lock sequence as a whole *)

Lemma cells_rows (p : Piece) (c : Z * Z) : c ∈ cells p -> y p <= snd c < y p + 4.
Proof.
  intros Hc. apply cells_in in Hc. destruct Hc as (i & Hi & _ & ->). cbn [snd].
  assert (Hd : (Nat.div i 4 < 4)%nat) by (apply Nat.Div0.div_lt_upper_bound; lia).
  lia.
Qed.

(** A lock on a board without full rows fills at most four rows. *)
Lemma lock_at_most_four (b : Board) (p : Piece) :
  no_full_rows b -> (length (full_rows (grid (lock b p))) <= 4)%nat.
Proof.
  intros Hnf.
  apply (List.NoDup_incl_length
           (l' := List.map Z.to_nat [y p; y p + 1; y p + 2; y p + 3])
           (full_rows_NoDup _)).
  intros i Hi. apply list_elem_of_In in Hi.
  destruct (full_after_lock b p i Hnf Hi) as (c & Hc & Hci).
  pose proof (cells_rows p c Hc) as Hrows. rewrite Hci in Hrows. cbn [List.map].
  assert (E : Z.of_nat i = y p \/ Z.of_nat i = y p + 1 \/ Z.of_nat i = y p + 2
              \/ Z.of_nat i = y p + 3) by lia.
  destruct E as [E | [E | [E | E]]]; rewrite <- E, Nat2Z.id; cbn; tauto.
Qed.

Lemma clear_lines_wf (b : Board) : wf_board b -> wf_board (snd (clear_lines b)).
Proof.
  intros Hwf. destruct (clear_lines_grid b Hwf) as [Hgrid Hlen].
  split; [exact Hlen|]. rewrite Hgrid. destruct Hwf as [_ Hrows].
  apply Forall_app. split.
  - apply Forall_forall. intros r Hr.
    apply elem_of_replicate in Hr. destruct Hr as [-> _]. reflexivity.
  - rewrite Forall_forall in Hrows |- *. intros r Hr.
    apply Hrows. apply list_elem_of_In in Hr.
    apply List.filter_In in Hr. apply list_elem_of_In. tauto.
Qed.

Lemma is_tspin_true_T (b : Board) (p : Piece) (n : Z) (a : option Action) (m : bool) :
  is_tspin b p n a = Some (true, m) -> kind p = kT /\ a = Some rotate /\ 0 < n.
Proof.
  unfold is_tspin.
  destruct (Kind_eqb (kind p) kT) eqn:Ek; [|discriminate].
  apply Kind_eqb_eq in Ek.
  destruct a as [[|]|]; cbn [is_rotate negb orb]; try discriminate.
  destruct (n <=? 0) eqn:En; [discriminate|]. apply Z.leb_gt in En.
  intros _. split; [exact Ek|]. split; [reflexivity | exact En].
Qed.

Lemma clear_lines_count (b b' : Board) (count : Z) (idx : list nat) :
  clear_lines b = (count, idx, b') ->
  count = Z.of_nat (length (full_rows (grid b))).
Proof. unfold clear_lines. intros H. injection H as <- _ _. reflexivity. Qed.

(** Whenever 0 to 4 lines are cleared, and at most 3 by a T-spin, the
    scoring branch adds the cleared count to the line total. *)
Lemma apply_score_lines (g1 : Game) (tspin mini : bool) (cleared : Z) (idx : list nat) :
  (tspin = true -> cleared <= 3) -> 0 <= cleared <= 4 ->
  lines (apply_score g1 (fst (classify tspin mini cleared))
           (snd (classify tspin mini cleared)) cleared idx)
  = lines g1 + cleared.
Proof.
  intros H3 H4.
  assert (E : cleared = 0 \/ cleared = 1 \/ cleared = 2 \/ cleared = 3
              \/ cleared = 4) by lia.
  destruct tspin.
  - specialize (H3 eq_refl).
    destruct E as [-> | [-> | [-> | [-> | ->]]]]; try lia;
      destruct mini; cbn; lia.
  - destruct E as [-> | [-> | [-> | [-> | ->]]]]; cbn; lia.
Qed.

Section LockFacts.
Variable shuffle_of : nat -> list Kind.
Hypothesis shuffle_perm : forall n, Permutation all_kinds (shuffle_of n).

(** [lock_piece] returns; the state it leaves, in terms of the steps that
    compose it. *)
Lemma lock_piece_spec (g : Game) :
  items (queue g) <> [] -> valid_rot (cur g) ->
  exists g1 cleared idx tspin mini g',
    lock_and_clear g = (g1, cleared, idx)
    /\ is_tspin (board g1) (cur g) cleared (last_action (cur g)) = Some (tspin, mini)
    /\ lock_piece shuffle_of g = Some g'
    /\ let s := apply_score g1 (fst (classify tspin mini cleared))
                            (snd (classify tspin mini cleared)) cleared idx in
       score g' = score s /\ combo g' = combo s /\ b2b g' = b2b s
       /\ lines g' = lines s /\ level g' = 1 + lines s / 10
       /\ board g' = board g1
       /\ lock_timer g' = None /\ lock_reset_count g' = 0.
Proof.
  intros Hq Hr.
  destruct (lock_and_clear g) as [[g1 cleared] idx] eqn:Hlc.
  pose proof (lock_and_clear_spec _ _ _ _ Hlc) as (_ & Hcur & Hq1 & _).
  destruct (is_tspin_total (board g1) (cur g) cleared (last_action (cur g)) Hr)
    as [[tspin mini] Hts].
  exists g1, cleared, idx, tspin, mini.
  unfold lock_piece. rewrite Hlc. rewrite Hcur, Hts. cbn [mbind option_bind].
  destruct (classify tspin mini cleared) as [lt isb]. cbn [fst snd].
  set (s := apply_score g1 lt isb cleared idx).
  assert (Hframe : queue s = queue g1 /\ board s = board g1).
  { unfold s, apply_score. destruct lt; split; reflexivity. }
  destruct Hframe as (Hqs & Hbs).
  destruct (spawn_total shuffle_of shuffle_perm (with_level s (1 + lines s / 10)))
    as (g' & Hsp & Hb & Hsc & Hl & Hc & Hbb & Hlv & _ & _ & Ht & Hn & _).
  { cbn [queue with_level]. rewrite Hqs, Hq1. exact Hq. }
  exists g'. split; [reflexivity|]. split; [reflexivity|].
  split; [exact Hsp|].
  cbn [board score lines combo b2b level with_level] in Hb, Hsc, Hl, Hc, Hbb, Hlv.
  cbv zeta. rewrite Hb, Hsc, Hl, Hc, Hbb, Hlv, Hbs. conjs; reflexivity || assumption.
Qed.

(** X10.  A lock that clears no line ends the combo and leaves
    back-to-back alone: the combo counter becomes -1, the back-to-back
    flag and the line total keep their values, and the score grows by the
    pending drop distances only. *)
Theorem lock_without_clear (g g1 : Game) (idx : list nat) :
  items (queue g) <> [] -> valid_rot (cur g) ->
  lock_and_clear g = (g1, 0, idx) ->
  exists g', lock_piece shuffle_of g = Some g'
    /\ combo g' = -1 /\ b2b g' = b2b g /\ lines g' = lines g
    /\ score g' = score g + (drop_distance_soft g * 1 + drop_distance_hard g * 2).
Proof.
  intros Hq Hr Hlc.
  destruct (lock_piece_spec g Hq Hr)
    as (g1' & c & idx' & tspin & mini & g' & Hlc' & _ & Hlock & H).
  rewrite Hlc in Hlc'. injection Hlc' as <- <- <-.
  pose proof (lock_and_clear_spec _ _ _ _ Hlc) as (_ & _ & _ & Hs & _ & _ & Hl & _ & Hbb).
  exists g'. split; [exact Hlock|].
  assert (Hcls : fst (classify tspin mini 0) = None).
  { destruct tspin; reflexivity. }
  cbv zeta in H. rewrite Hcls in H. cbn [apply_score] in H.
  cbn [score combo b2b lines with_combo] in H.
  destruct H as (Hsc & Hco & Hb2 & Hln & _).
  rewrite Hsc, Hco, Hb2, Hln, Hs, Hl, Hbb. conjs; reflexivity.
Qed.

(** X11.  A single, double or triple that is not a T-spin breaks
    back-to-back: the lock scores the plain table value (100, 300 or 500)
    with no 1.5 factor even when back-to-back was set, plus 50 per combo
    step, and leaves the back-to-back flag false. *)
Theorem plain_clear_breaks_b2b (g g1 : Game) (cleared : Z) (idx : list nat) :
  items (queue g) <> [] -> valid_rot (cur g) ->
  kind (cur g) <> kT \/ last_action (cur g) <> Some rotate ->
  lock_and_clear g = (g1, cleared, idx) ->
  1 <= cleared <= 3 ->
  exists g', lock_piece shuffle_of g = Some g'
    /\ b2b g' = false
    /\ combo g' = (if 0 <=? combo g then combo g + 1 else 0)
    /\ lines g' = lines g + cleared
    /\ score g' = score g
                  + (drop_distance_soft g * 1 + drop_distance_hard g * 2)
                  + ((if cleared =? 1 then 100 else if cleared =? 2 then 300 else 500)
                     + 50 * combo g').
Proof.
  intros Hq Hr Hplain Hlc Hc.
  destruct (lock_piece_spec g Hq Hr)
    as (g1' & c & idx' & tspin & mini & g' & Hlc' & Hts & Hlock & H).
  rewrite Hlc in Hlc'. injection Hlc' as <- <- <-.
  rewrite (is_tspin_needs_rotation _ _ _ _ Hplain) in Hts. injection Hts as <- <-.
  pose proof (lock_and_clear_spec _ _ _ _ Hlc)
    as (_ & _ & _ & Hs & _ & _ & Hl & Hco & Hbb).
  exists g'. split; [exact Hlock|].
  cbv zeta in H. destruct H as (Hsc & Hcm & Hb2 & Hln & _).
  assert (E : cleared = 1 \/ cleared = 2 \/ cleared = 3) by lia.
  destruct E as [-> | [-> | ->]];
    cbn [classify Z.eqb Pos.eqb fst snd apply_score SCORE_TABLE andb
         score combo b2b lines with_b2b with_combo with_score with_lines
         with_clear_anim] in Hsc, Hcm, Hb2, Hln |- *;
    rewrite Hsc, Hcm, Hb2, Hln, Hs, Hl, Hco; conjs; reflexivity.
Qed.

(** X12.  Every lock on a board without full rows clears between 0 and 4
    lines, adds exactly that number to the line total and sets the level
    to 1 plus a tenth of the new total, rounded down; so the level never
    falls. *)
Theorem lock_lines_and_level (g g1 : Game) (cleared : Z) (idx : list nat) :
  items (queue g) <> [] -> valid_rot (cur g) ->
  no_full_rows (board g) ->
  lock_and_clear g = (g1, cleared, idx) ->
  exists g', lock_piece shuffle_of g = Some g'
    /\ 0 <= cleared <= 4
    /\ lines g' = lines g + cleared
    /\ level g' = 1 + lines g' / 10
    /\ (level g = 1 + lines g / 10 -> level g <= level g').
Proof.
  intros Hq Hr Hnf Hlc.
  destruct (lock_piece_spec g Hq Hr)
    as (g1' & c & idx' & tspin & mini & g' & Hlc' & Hts & Hlock & H).
  rewrite Hlc in Hlc'. injection Hlc' as <- <- <-.
  pose proof (lock_and_clear_spec _ _ _ _ Hlc) as (Hcl & _ & _ & _ & _ & _ & Hl & _).
  pose proof (lock_at_most_four (board g) (cur g) Hnf) as Hfour.
  assert (Hthree : tspin = true ->
            (length (full_rows (grid (lock (board g) (cur g)))) <= 3)%nat).
  { intros ->. apply is_tspin_true_T in Hts. destruct Hts as (Hk & _).
    exact (T_lock_at_most_three (board g) (cur g) Hnf Hk Hr). }
  pose proof (clear_lines_count _ _ _ _ Hcl) as Hn.
  revert Hn Hfour Hthree.
  generalize (length (full_rows (grid (lock (board g) (cur g))))) as k.
  intros k Hn Hfour Hthree.
  assert (H4 : 0 <= cleared <= 4) by lia.
  assert (H3 : tspin = true -> cleared <= 3).
  { intros Ht. specialize (Hthree Ht). lia. }
  exists g'. split; [exact Hlock|]. split; [exact H4|].
  cbv zeta in H. destruct H as (_ & _ & _ & Hln & Hlv & _).
  pose proof (apply_score_lines g1 tspin mini cleared idx H3 H4) as Hlines.
  rewrite Hlines in Hln, Hlv. rewrite Hl in Hln, Hlv.
  split; [exact Hln|]. split; [rewrite Hln; exact Hlv|].
  intros Hlevel. rewrite Hlv, Hlevel.
  apply Z.add_le_mono_l. apply Z.div_le_mono; lia.
Qed.

(** X13.  The lock sequence keeps the board well formed: started on a
    ROWS x COLS board it leaves a ROWS x COLS board on which no row is
    full. *)
Theorem lock_piece_keeps_board (g : Game) :
  items (queue g) <> [] -> valid_rot (cur g) ->
  wf_board (board g) ->
  exists g', lock_piece shuffle_of g = Some g'
    /\ wf_board (board g') /\ no_full_rows (board g').
Proof.
  intros Hq Hr Hwf.
  destruct (lock_piece_spec g Hq Hr)
    as (g1 & c & idx & tspin & mini & g' & Hlc & _ & Hlock & H).
  exists g'. split; [exact Hlock|].
  cbv zeta in H. destruct H as (_ & _ & _ & _ & _ & Hb & _). rewrite Hb.
  pose proof (lock_and_clear_spec _ _ _ _ Hlc) as (Hcl & _).
  pose proof (lock_wf (board g) (cur g) Hwf) as Hwl.
  split.
  - pose proof (clear_lines_wf _ Hwl) as H. rewrite Hcl in H. exact H.
  - exact (lock_and_clear_no_full_rows g g1 c idx Hwf Hlc).
Qed.
End LockFacts.

(** ** Spawn and hold *)

Section SpawnHold.
Variable shuffle_of : nat -> list Kind.
Hypothesis shuffle_perm : forall n, Permutation all_kinds (shuffle_of n).

Lemma new_Piece_valid (k : Kind) : valid_rot (new_Piece k).
Proof. unfold valid_rot. cbn [rot new_Piece]. lia. Qed.

Lemma mbind_Some {A B : Type} (v : A) (f : A -> option B) : Some v ≫= f = f v.
Proof. reflexivity. Qed.

Lemma finish_spawn_frame (g : Game) (gy : Z) :
  cur (finish_spawn g gy) = cur g /\ queue (finish_spawn g gy) = queue g
  /\ hold_used (finish_spawn g gy) = hold_used g
  /\ game_over (finish_spawn g gy) = game_over g
  /\ lock_timer (finish_spawn g gy) = None
  /\ lock_reset_count (finish_spawn g gy) = 0
  /\ board (finish_spawn g gy) = board g /\ score (finish_spawn g gy) = score g
  /\ hold (finish_spawn g gy) = hold g.
Proof. conjs; reflexivity. Qed.

Lemma finish_hold_frame (g : Game) (gy : Z) :
  hold_used (finish_hold g gy) = true /\ hold (finish_hold g gy) = hold g
  /\ lock_timer (finish_hold g gy) = None
  /\ lock_reset_count (finish_hold g gy) = 0
  /\ board (finish_hold g gy) = board g /\ score (finish_hold g gy) = score g
  /\ cur (finish_hold g gy) = cur g /\ queue (finish_hold g gy) = queue g.
Proof. conjs; reflexivity. Qed.

Lemma spawn_unfold (g : Game) :
  spawn shuffle_of g =
  Queue_next shuffle_of (queue g)
  ≫= (fun kq =>
        compute_ghost_y
          (check_over (with_hold_used (with_cur (with_queue g (snd kq))
                                                (new_Piece (fst kq))) false))
        ≫= fun gy =>
             Some (finish_spawn
                     (check_over (with_hold_used (with_cur (with_queue g (snd kq))
                                                           (new_Piece (fst kq))) false))
                     gy)).
Proof.
  unfold spawn. destruct (Queue_next shuffle_of (queue g)) as [[k q]|]; [|reflexivity].
  cbv beta iota zeta delta [mbind option_bind check_over finish_spawn fst snd].
  reflexivity.
Qed.

Lemma spawn_spec (g : Game) (k : Kind) (rest : list Kind) :
  items (queue g) = k :: rest ->
  exists j b' g',
    Bag_pop shuffle_of (bag (queue g)) = Some (j, b')
    /\ spawn shuffle_of g = Some g'
    /\ cur g' = new_Piece k
    /\ queue g' = {| bag := b'; items := rest ++ [j]; preview := preview (queue g) |}
    /\ hold_used g' = false
    /\ game_over g' = (game_over g || collide (board g) (new_Piece k))
    /\ lock_timer g' = None /\ lock_reset_count g' = 0
    /\ board g' = board g /\ score g' = score g /\ hold g' = hold g.
Proof.
  intros Hi. rewrite spawn_unfold. unfold Queue_next. rewrite Hi.
  destruct (Bag_pop_total shuffle_of shuffle_perm (bag (queue g))) as (j & b' & Hpop).
  rewrite Hpop, mbind_Some. cbn [fst snd].
  exists j, b'.
  set (q := {| bag := b'; items := rest ++ [j]; preview := preview (queue g) |}).
  set (g0 := with_hold_used (with_cur (with_queue g q) (new_Piece k)) false).
  assert (Hco : cur (check_over g0) = new_Piece k /\ board (check_over g0) = board g
                /\ queue (check_over g0) = q /\ hold_used (check_over g0) = false
                /\ score (check_over g0) = score g /\ hold (check_over g0) = hold g
                /\ game_over (check_over g0)
                   = (game_over g || collide (board g) (new_Piece k))).
  { unfold check_over.
    change (board g0) with (board g). change (cur g0) with (new_Piece k).
    destruct (collide (board g) (new_Piece k)).
    - rewrite orb_true_r. conjs; reflexivity.
    - rewrite orb_false_r. conjs; reflexivity. }
  destruct Hco as (Hc & Hb & Hqq & Hu & Hs & Hh & Hg).
  destruct (compute_ghost_y_total (check_over g0)) as [gy Hgy].
  { rewrite Hc. apply new_Piece_valid. }
  rewrite Hgy, mbind_Some.
  exists (finish_spawn (check_over g0) gy). split; [reflexivity|]. split; [reflexivity|].
  destruct (finish_spawn_frame (check_over g0) gy)
    as (-> & -> & -> & -> & -> & -> & -> & -> & ->).
  rewrite Hc, Hb, Hqq, Hu, Hs, Hh, Hg. conjs; reflexivity.
Qed.

(** X14.  The piece that spawns is the head of the queue, at the spawn
    anchor of its kind; the queue drops that head and takes at its end
    the kind that [Bag.pop] returns, its bag being the bag left by that
    pop, and keeps its length and preview depth, so the first preview
    entry is the next piece;
    the lock-delay timer and counter and the hold-used flag are reset,
    and the game is over exactly if it was or the new piece collides. *)
Theorem spawn_takes_queue_head (g : Game) (k : Kind) (rest : list Kind) :
  items (queue g) = k :: rest ->
  exists g', spawn shuffle_of g = Some g'
    /\ cur g' = new_Piece k
    /\ ((0 < preview (queue g))%nat -> head (peek_list (queue g)) = Some k)
    /\ length (items (queue g')) = length (items (queue g))
    /\ (exists j b', Bag_pop shuffle_of (bag (queue g)) = Some (j, b')
                      /\ queue g' = {| bag := b'; items := rest ++ [j];
                                       preview := preview (queue g) |})
    /\ game_over g' = (game_over g || collide (board g) (new_Piece k))
    /\ hold_used g' = false /\ lock_timer g' = None /\ lock_reset_count g' = 0
    /\ board g' = board g /\ score g' = score g.
Proof.
  intros Hi.
  destruct (spawn_spec g k rest Hi)
    as (j & b' & g' & Hpop & Hsp & Hc & Hq & Hu & Hg & Ht & Hn & Hb & Hs & _).
  exists g'. split; [exact Hsp|]. split; [exact Hc|]. split.
  { intros Hp. unfold peek_list. rewrite Hi.
    destruct (preview (queue g)); [lia | reflexivity]. }
  split.
  { rewrite Hq. cbn [items]. rewrite Hi, length_app. cbn [length]. lia. }
  split; [exists j, b'; split; [exact Hpop | exact Hq]|].
  conjs; assumption.
Qed.

Lemma lift_O_cur (g : Game) (h : Kind) (a : option Action) (l : Z) :
  cur g = {| kind := h; rot := 0; x := 3; y := -1; last_action := a; lock_resets := l |} ->
  cur (lift_O g) = {| kind := h; rot := 0; x := 3; y := y (new_Piece h);
                      last_action := a; lock_resets := l |}.
Proof.
  intros Hc. unfold lift_O. rewrite Hc. cbn [kind x new_Piece y].
  destruct (Kind_eqb h kO); [reflexivity | exact Hc].
Qed.

Lemma lift_O_frame (g : Game) :
  board (lift_O g) = board g /\ score (lift_O g) = score g
  /\ queue (lift_O g) = queue g /\ hold (lift_O g) = hold g.
Proof. unfold lift_O. destruct (Kind_eqb _ kO); conjs; reflexivity. Qed.

Lemma check_over_frame (g : Game) :
  cur (check_over g) = cur g /\ board (check_over g) = board g
  /\ score (check_over g) = score g /\ queue (check_over g) = queue g
  /\ hold (check_over g) = hold g.
Proof. unfold check_over. destruct (collide _ _); conjs; reflexivity. Qed.

(** The swap branch as a whole. *)
Lemma swap_branch (g : Game) (h : Kind) :
  let g4 := check_over (lift_O (to_anchor (reset_rot (swap_kind g h)))) in
  cur g4 = held_piece (cur g) h /\ board g4 = board g /\ score g4 = score g
  /\ queue g4 = queue g /\ hold g4 = Some (kind (cur g)).
Proof.
  intros g4. unfold g4.
  destruct (check_over_frame (lift_O (to_anchor (reset_rot (swap_kind g h)))))
    as (-> & -> & -> & -> & ->).
  destruct (lift_O_frame (to_anchor (reset_rot (swap_kind g h))))
    as (-> & -> & -> & ->).
  split; [|conjs; reflexivity].
  apply (lift_O_cur _ h (last_action (cur g)) (lock_resets (cur g))). reflexivity.
Qed.

Lemma hold_swap_unfold (g : Game) :
  hold_swap shuffle_of g =
  if hold_used g then Some g
  else
    (match hold g with
     | None => spawn shuffle_of (with_hold g (Some (kind (cur g))))
     | Some h => Some (check_over (lift_O (to_anchor (reset_rot (swap_kind g h)))))
     end)
    ≫= (fun g1 => compute_ghost_y (with_hold_used g1 true)
                  ≫= fun gy => Some (finish_hold g1 gy)).
Proof.
  cbv beta zeta delta [hold_swap swap_kind reset_rot to_anchor lift_O check_over
                       finish_hold].
  reflexivity.
Qed.

(** X15.  Hold works once per piece: when it has been used since the
    last spawn the call changes nothing; otherwise the kind of the active
    piece goes into the hold slot, the lock-delay timer and counter are
    reset and the flag is set, so that a second call in a row changes
    nothing.  With a held kind the active piece takes it, at rotation
    state 0 and the spawn anchor, the queue is untouched and the piece
    keeps its last-action tag; with an empty slot the head of the queue
    spawns. *)
Theorem hold_swap_once (g : Game) :
  items (queue g) <> [] ->
  exists g', hold_swap shuffle_of g = Some g'
    /\ (hold_used g = true -> g' = g)
    /\ (hold_used g = false ->
        hold_used g' = true /\ hold g' = Some (kind (cur g))
        /\ lock_timer g' = None /\ lock_reset_count g' = 0
        /\ board g' = board g /\ score g' = score g
        /\ match hold g with
           | Some h => cur g' = held_piece (cur g) h /\ queue g' = queue g
           | None => exists k rest, items (queue g) = k :: rest
                                    /\ cur g' = new_Piece k
           end)
    /\ hold_swap shuffle_of g' = Some g'.
Proof.
  intros Hq. rewrite hold_swap_unfold.
  assert (Hagain : forall g', hold_used g' = true ->
                     hold_swap shuffle_of g' = Some g').
  { intros g' Hg'. rewrite hold_swap_unfold, Hg'. reflexivity. }
  destruct (hold_used g) eqn:Hu.
  { exists g. split; [reflexivity|]. split; [reflexivity|].
    split; [discriminate | apply Hagain; exact Hu]. }
  assert (Hfin : forall g1, valid_rot (cur g1) ->
            exists gy, compute_ghost_y (with_hold_used g1 true) = Some gy).
  { intros g1 Hv. apply compute_ghost_y_total. exact Hv. }
  destruct (hold g) as [h|] eqn:Hh.
  - rewrite mbind_Some.
    pose proof (swap_branch g h) as Hsw. cbv zeta in Hsw.
    set (g4 := check_over (lift_O (to_anchor (reset_rot (swap_kind g h))))) in *.
    destruct Hsw as (Hc & Hb & Hs & Hqq & Hhold).
    destruct (Hfin g4) as [gy Hgy].
    { rewrite Hc. unfold valid_rot, held_piece. cbn [rot]. lia. }
    rewrite Hgy, mbind_Some.
    exists (finish_hold g4 gy). split; [reflexivity|]. split; [discriminate|].
    split; [|apply Hagain; reflexivity]. intros _.
    destruct (finish_hold_frame g4 gy) as (-> & -> & -> & -> & -> & -> & -> & ->).
    rewrite Hhold, Hb, Hs, Hc, Hqq. conjs; reflexivity.
  - destruct (items (queue g)) as [|k rest] eqn:Hi; [congruence|].
    destruct (spawn_spec (with_hold g (Some (kind (cur g)))) k rest Hi)
      as (j & b' & g1 & _ & Hsp & Hc & _ & _ & _ & _ & _ & Hb & Hs & Hhold).
    rewrite Hsp, mbind_Some.
    destruct (Hfin g1) as [gy Hgy].
    { rewrite Hc. apply new_Piece_valid. }
    rewrite Hgy, mbind_Some.
    exists (finish_hold g1 gy). split; [reflexivity|]. split; [discriminate|].
    split; [|apply Hagain; reflexivity]. intros _.
    destruct (finish_hold_frame g1 gy) as (-> & -> & -> & -> & -> & -> & -> & _).
    rewrite Hhold, Hb, Hs, Hc. conjs; try reflexivity.
    exists k, rest. split; reflexivity.
Qed.
End SpawnHold.

Lemma spawn_takes_queue_head_witness :
  exists g', spawn alternating_shuffle grounded_T = Some g'
    /\ cur g' = new_Piece kJ.
Proof.
  destruct (spawn_takes_queue_head alternating_shuffle alternating_shuffle_perm
              grounded_T kJ [kL; kO] eq_refl) as (g' & H1 & H2 & _).
  exists g'. split; assumption.
Defined.

Lemma hold_swap_once_witness :
  exists g', hold_swap alternating_shuffle grounded_T = Some g'
    /\ hold_swap alternating_shuffle g' = Some g'.
Proof.
  destruct (hold_swap_once alternating_shuffle alternating_shuffle_perm grounded_T)
    as (g' & H1 & _ & _ & H2).
  - discriminate.
  - exists g'. split; assumption.
Defined.

(** ** The queue in front of the bag *)

Section QueueOrder.
Variable shuffle_of : nat -> list Kind.
Hypothesis shuffle_perm : forall n, Permutation all_kinds (shuffle_of n).

Lemma Bag_pops_total (n : nat) (b : Bag) :
  exists ks b', Bag_pops shuffle_of n b = Some (ks, b') /\ length ks = n.
Proof.
  revert b. induction n as [|n IH]; intros b; cbn [Bag_pops].
  - exists [], b. split; reflexivity.
  - destruct (Bag_pop_total shuffle_of shuffle_perm b) as (k & b1 & ->).
    destruct (IH b1) as (ks & b2 & -> & Hl).
    exists (k :: ks), b2. split; [reflexivity|]. cbn [length]. lia.
Qed.

Lemma Bag_pops_one (b : Bag) (k : Kind) (b' : Bag) :
  Bag_pop shuffle_of b = Some (k, b') -> Bag_pops shuffle_of 1 b = Some ([k], b').
Proof. intros H. cbn [Bag_pops]. rewrite H. reflexivity. Qed.

(** The kinds that a queue hands out, followed by the kinds it holds, are
    the kinds popped from the bag, in order. *)
Lemma Queue_nexts_order (n : nat) (q : Queue) (b0 : Bag) (m : nat) (pre : list Kind) :
  items q <> [] ->
  Bag_pops shuffle_of m b0 = Some (pre ++ items q, bag q) ->
  exists ks q', Queue_nexts shuffle_of n q = Some (ks, q')
    /\ length ks = n
    /\ length (items q') = length (items q) /\ preview q' = preview q
    /\ Bag_pops shuffle_of (m + n) b0 = Some (pre ++ ks ++ items q', bag q').
Proof.
  revert q m pre. induction n as [|n IH]; intros q m pre Hne Hpops.
  - exists [], q. cbn [Queue_nexts app length]. rewrite Nat.add_0_r.
    conjs; try reflexivity. exact Hpops.
  - cbn [Queue_nexts]. unfold Queue_next.
    destruct (items q) as [|k rest] eqn:Hi; [congruence|].
    destruct (Bag_pop_total shuffle_of shuffle_perm (bag q)) as (j & b1 & Hpop).
    rewrite Hpop.
    set (q1 := {| bag := b1; items := rest ++ [j]; preview := preview q |}).
    destruct (IH q1 (m + 1)%nat (pre ++ [k])) as (ks & q' & Hn & Hlk & Hl & Hp & Hb).
    { cbn [items q1]. intros Habs. apply app_eq_nil in Habs.
      destruct Habs; discriminate. }
    { rewrite Bag_pops_add, Hpops, (Bag_pops_one _ _ _ Hpop).
      cbn [items bag q1]. f_equal. f_equal.
      rewrite <- !app_assoc. reflexivity. }
    rewrite Hn. exists (k :: ks), q'. split; [reflexivity|].
    split; [cbn [length]; lia|].
    split; [rewrite Hl; cbn [items q1]; rewrite length_app; cbn [length]; lia|].
    split; [exact Hp|].
    replace (m + Datatypes.S n)%nat with (m + 1 + n)%nat by lia.
    rewrite Hb. f_equal. f_equal. rewrite <- !app_assoc. reflexivity.
Qed.

(** X16.  The queue is a window on the bag: after any number of calls of
    [next] on a new queue of depth [pv], the kinds handed out followed by
    the [pv + 1] kinds still in the queue are exactly the kinds popped so
    far from the bag, in the order popped; the queue never changes length. *)
Theorem queue_delivers_bag_order (pv n : nat) :
  exists q0 ks q',
    new_Queue shuffle_of pv = Some q0
    /\ Queue_nexts shuffle_of n q0 = Some (ks, q')
    /\ length ks = n
    /\ length (items q') = (pv + 1)%nat /\ preview q' = pv
    /\ Bag_pops shuffle_of (pv + 1 + n) (new_Bag shuffle_of)
       = Some (ks ++ items q', bag q').
Proof.
  unfold new_Queue.
  destruct (Bag_pops_total (pv + 1) (new_Bag shuffle_of)) as (ks0 & b0 & Hp & Hl0).
  rewrite Hp.
  set (q0 := {| bag := b0; items := ks0; preview := pv |}).
  destruct (Queue_nexts_order n q0 (new_Bag shuffle_of) (pv + 1)%nat [])
    as (ks & q' & Hn & Hlk & Hl & Hpv & Hb).
  { cbn [items q0]. intros ->. cbn [length] in Hl0. lia. }
  { exact Hp. }
  exists q0, ks, q'. split; [reflexivity|]. split; [exact Hn|].
  split; [exact Hlk|]. split; [rewrite Hl; exact Hl0|]. split; [exact Hpv|].
  exact Hb.
Qed.
End QueueOrder.

Lemma queue_delivers_bag_order_witness :
  exists q0 ks q',
    new_Queue alternating_shuffle 2 = Some q0
    /\ Queue_nexts alternating_shuffle 9 q0 = Some (ks, q')
    /\ length ks = 9%nat
    /\ length (items q') = 3%nat /\ preview q' = 2%nat
    /\ Bag_pops alternating_shuffle (2 + 1 + 9) (new_Bag alternating_shuffle)
       = Some (ks ++ items q', bag q').
Proof.
  exact (queue_delivers_bag_order alternating_shuffle alternating_shuffle_perm 2 9).
Defined.

(** ** The T-spin test, case by case *)

Lemma is_rotate_true (a : option Action) : is_rotate a = true <-> a = Some rotate.
Proof. destruct a as [[|]|]; cbn; split; congruence. Qed.

(** X17.  [is_tspin] answers for every piece in a rotation state 0..3.
    It says T-spin exactly for a T piece whose last action is a rotation,
    with a line cleared and at least 3 of its 4 corners occupied; it says
    mini only together with T-spin, exactly when one line is cleared and
    one of the two facing corners is occupied. *)
Theorem is_tspin_cases (b : Board) (p : Piece) (n : Z) (a : option Action) :
  valid_rot p ->
  exists t m, is_tspin b p n a = Some (t, m)
    /\ (t = true <->
        kind p = kT /\ a = Some rotate /\ 0 < n
        /\ 3 <= count_occupied b (corners (x p + 1) (y p + 1)))
    /\ (m = true <->
        t = true /\ n = 1
        /\ count_occupied b (facing_corners (rot p) (x p + 1) (y p + 1)) = 1).
Proof.
  intros Hr. unfold is_tspin.
  destruct (Kind_eqb (kind p) kT) eqn:Ek.
  2:{ exists false, false. split; [reflexivity|].
      split; (split; [discriminate|]).
      - intros (Hk & _). apply Kind_eqb_eq in Hk. congruence.
      - intros (Ht & _). discriminate. }
  apply Kind_eqb_eq in Ek.
  destruct (is_rotate a) eqn:Ea.
  2:{ exists false, false. split; [reflexivity|].
      split; (split; [discriminate|]).
      - intros (_ & Ha & _). apply is_rotate_true in Ha. congruence.
      - intros (Ht & _). discriminate. }
  apply is_rotate_true in Ea.
  destruct (n <=? 0) eqn:En.
  { apply Z.leb_le in En. exists false, false. split; [reflexivity|].
    split; (split; [discriminate|]).
    - intros (_ & _ & Hn & _). lia.
    - intros (Ht & _). discriminate. }
  apply Z.leb_gt in En. cbn [negb orb].
  destruct (count_occupied b (corners (x p + 1) (y p + 1)) <? 3) eqn:Ec.
  { apply Z.ltb_lt in Ec. exists false, false. split; [reflexivity|].
    split; (split; [discriminate|]).
    - intros (_ & _ & _ & Hc). lia.
    - intros (Ht & _). discriminate. }
  apply Z.ltb_ge in Ec.
  rewrite (front_corners_facing _ _ _ Hr).
  eexists true, _. split; [reflexivity|]. split.
  - split; [intros _; conjs; assumption | reflexivity].
  - rewrite andb_true_iff, !Z.eqb_eq. split.
    + intros [H1 H2]. conjs; [reflexivity | exact H2 | exact H1].
    + intros (_ & H2 & H1). split; assumption.
Qed.

Lemma is_tspin_cases_witness :
  exists t m,
    is_tspin (fst (fst (lock_and_clear tslot_state))).(board) (cur tslot_state) 1
             (Some rotate) = Some (t, m)
    /\ (m = true <->
        t = true /\ 1 = 1
        /\ count_occupied (fst (fst (lock_and_clear tslot_state))).(board)
             (facing_corners (rot (cur tslot_state)) (x (cur tslot_state) + 1)
                (y (cur tslot_state) + 1)) = 1).
Proof.
  destruct (is_tspin_cases (fst (fst (lock_and_clear tslot_state))).(board)
              (cur tslot_state) 1 (Some rotate)) as (t & m & H1 & _ & H2).
  - unfold valid_rot. simpl. lia.
  - exists t, m. split; assumption.
Defined.

(** ** Clamping *)

(** X18.  With [lo <= hi], [clamp] returns a value between the bounds: [v]
    itself when it lies between them, the nearer bound otherwise. *)
Theorem clamp_bounds (v lo hi : Z) :
  lo <= hi ->
  lo <= clamp v lo hi <= hi
  /\ (lo <= v <= hi -> clamp v lo hi = v)
  /\ (v < lo -> clamp v lo hi = lo)
  /\ (hi < v -> clamp v lo hi = hi).
Proof. unfold clamp. intros H. lia. Qed.

Lemma clamp_bounds_witness : 0 <= clamp 255 0 180 <= 180.
Proof. apply (clamp_bounds 255 0 180). lia. Defined.

(** ** A new game *)

Lemma spawn_on_empty_board (k : Kind) : collide new_Board (new_Piece k) = false.
Proof. destruct k; vm_compute; reflexivity. Qed.

Section NewGame.
Variable shuffle_of : nat -> list Kind.
Hypothesis shuffle_perm : forall n, Permutation all_kinds (shuffle_of n).

(** X19.  A new game takes its first four kinds from the first shuffle:
    the first is the active piece, at its spawn anchor and clear of the
    empty board, the next three fill the queue; score, lines, combo,
    level, flags and timers have their initial values. *)
Theorem new_Game_starts :
  exists g, new_Game shuffle_of = Some g
    /\ kind (cur g) :: items (queue g) = take 4 (shuffle_of 0)
    /\ pool (bag (queue g)) = drop 4 (shuffle_of 0)
    /\ cur g = new_Piece (kind (cur g))
    /\ board g = new_Board /\ collide (board g) (cur g) = false
    /\ score g = 0 /\ lines g = 0 /\ level g = 1 /\ combo g = -1
    /\ b2b g = false /\ hold g = None /\ hold_used g = false
    /\ lock_timer g = None /\ lock_reset_count g = 0 /\ game_over g = false.
Proof.
  pose proof (shuffle_length shuffle_of shuffle_perm 0) as Hl.
  unfold new_Game, new_Queue, new_Bag, refill. cbn [pool rng app].
  destruct (shuffle_of 0%nat) as [|k0 [|k1 [|k2 [|k3 rest]]]]; try discriminate Hl.
  cbn [Nat.add Bag_pops Bag_pop pool rng mbind option_bind Queue_next items bag
       preview app take drop].
  match goal with |- context [compute_ghost_y ?g0] =>
    destruct (compute_ghost_y_total g0 (new_Piece_valid k0)) as [gy Hgy]; rewrite Hgy
  end.
  cbn [mbind option_bind].
  eexists. split; [reflexivity|].
  cbn [cur queue board score lines level combo b2b hold hold_used lock_timer
       lock_reset_count game_over with_ghost_y items bag pool kind new_Piece].
  conjs; try reflexivity. apply spawn_on_empty_board.
Qed.
End NewGame.

Lemma new_Game_starts_witness :
  exists g, new_Game alternating_shuffle = Some g
    /\ kind (cur g) :: items (queue g) = [kI; kJ; kL; kO].
Proof.
  destruct (new_Game_starts alternating_shuffle alternating_shuffle_perm)
    as (g & H1 & H2 & _).
  exists g. split; [exact H1 | exact H2].
Defined.

(** ** Rotation as an intent *)

Lemma compute_ghost_y_ext (g1 g2 : Game) :
  cur g1 = cur g2 -> board g1 = board g2 -> compute_ghost_y g1 = compute_ghost_y g2.
Proof. unfold compute_ghost_y. intros -> ->. reflexivity. Qed.

Lemma ghost_y_with_ghost_y (g : Game) (gy : Z) : ghost_y (with_ghost_y g gy) = gy.
Proof. reflexivity. Qed.

Lemma with_cur_same (g : Game) : with_cur g (cur g) = g.
Proof. destruct g. reflexivity. Qed.

(** X20.  [try_rotate] returns for every piece in a rotation state 0..3.
    A failed rotation leaves the whole game state as it was.  A successful
    one installs the piece that [rotate_with_kick] returns, tagged
    ['rotate'], stores the ghost row of the new position, resets the
    lock-delay timer to zero exactly when a timer is running and fewer
    than 15 resets have been used, and touches neither board nor score. *)
Theorem try_rotate_effect (g : Game) (dir : Z) :
  valid_rot (cur g) ->
  exists g' ok, try_rotate g dir = Some (g', ok)
    /\ rotate_with_kick (board g) (cur g) dir = (cur g', ok)
    /\ board g' = board g /\ score g' = score g
    /\ (ok = false -> g' = g)
    /\ (ok = true ->
        compute_ghost_y g' = Some (ghost_y g')
        /\ last_action (cur g') = Some rotate
        /\ if timer_running g && (lock_reset_count g <? LOCK_RESETS_MAX)
           then lock_timer g' = Some 0%Q
                /\ lock_reset_count g' = lock_reset_count g + 1
           else lock_timer g' = lock_timer g
                /\ lock_reset_count g' = lock_reset_count g).
Proof.
  intros Hr. unfold try_rotate.
  pose proof (rotate_valid (board g) (cur g) dir Hr) as Hv.
  destruct (rotate_with_kick (board g) (cur g) dir) as [c1 ok] eqn:Erot.
  cbn [fst] in Hv. destruct ok.
  - pose proof (rotate_success_tag _ _ _ _ Erot) as [Htag _].
    cbv zeta.
    change (timer_running (with_cur g c1)) with (timer_running g).
    change (lock_reset_count (with_cur g c1)) with (lock_reset_count g).
    destruct (timer_running g && (lock_reset_count g <? LOCK_RESETS_MAX)).
    + destruct (compute_ghost_y_total (reset_lock_timer (with_cur g c1)) Hv)
        as [gy Hgy].
      rewrite Hgy, mbind_Some. eexists _, _. split; [reflexivity|].
      split; [reflexivity|]. split; [reflexivity|]. split; [reflexivity|].
      split; [discriminate|]. intros _. split.
      * rewrite ghost_y_with_ghost_y, <- Hgy. apply compute_ghost_y_ext; reflexivity.
      * split; [exact Htag|]. split; reflexivity.
    + destruct (compute_ghost_y_total (with_cur g c1) Hv) as [gy Hgy].
      rewrite Hgy, mbind_Some. eexists _, _. split; [reflexivity|].
      split; [reflexivity|]. split; [reflexivity|]. split; [reflexivity|].
      split; [discriminate|]. intros _. split.
      * rewrite ghost_y_with_ghost_y, <- Hgy. apply compute_ghost_y_ext; reflexivity.
      * split; [exact Htag|]. split; reflexivity.
  - apply rotate_fail_unchanged in Erot; [|exact Hr]. subst c1.
    exists (with_cur g (cur g)), false. split; [reflexivity|].
    rewrite with_cur_same.
    split; [reflexivity|]. split; [reflexivity|]. split; [reflexivity|].
    split; [reflexivity | discriminate].
Qed.

Lemma try_rotate_effect_witness :
  exists g' ok, try_rotate grounded_T 1 = Some (g', ok)
    /\ rotate_with_kick (board grounded_T) (cur grounded_T) 1 = (cur g', ok)
    /\ board g' = board grounded_T /\ score g' = score grounded_T.
Proof.
  destruct (try_rotate_effect grounded_T 1) as (g' & ok & H1 & H2 & H3 & H4 & _).
  - unfold valid_rot. simpl. lia.
  - exists g', ok. conjs; assumption.
Defined.

(** ** Sample locks, continued *)

Lemma lock_without_clear_witness :
  exists g', lock_piece alternating_shuffle grounded_T = Some g'
    /\ combo g' = -1 /\ b2b g' = b2b grounded_T /\ lines g' = lines grounded_T
    /\ score g' = score grounded_T
                  + (drop_distance_soft grounded_T * 1
                     + drop_distance_hard grounded_T * 2).
Proof.
  apply (lock_without_clear alternating_shuffle alternating_shuffle_perm
           grounded_T (fst (fst (lock_and_clear grounded_T))) []).
  - discriminate.
  - unfold valid_rot. simpl. lia.
  - vm_compute. reflexivity.
Defined.

Lemma plain_clear_breaks_b2b_witness :
  exists g', lock_piece alternating_shuffle plain_single_state = Some g'
    /\ b2b g' = false
    /\ combo g' = (if 0 <=? combo plain_single_state
                   then combo plain_single_state + 1 else 0)
    /\ lines g' = lines plain_single_state + 1
    /\ score g' = score plain_single_state
                  + (drop_distance_soft plain_single_state * 1
                     + drop_distance_hard plain_single_state * 2)
                  + ((if 1 =? 1 then 100 else if 1 =? 2 then 300 else 500)
                     + 50 * combo g').
Proof.
  apply (plain_clear_breaks_b2b alternating_shuffle alternating_shuffle_perm
           plain_single_state (fst (fst (lock_and_clear plain_single_state)))
           1 [21%nat]).
  - discriminate.
  - unfold valid_rot. simpl. lia.
  - right. discriminate.
  - vm_compute. reflexivity.
  - lia.
Defined.

Example plain_single_score :
  option_map score (lock_piece alternating_shuffle plain_single_state) = Some 100
  /\ option_map b2b (lock_piece alternating_shuffle plain_single_state) = Some false.
Proof. split; vm_compute; reflexivity. Qed.

Lemma lock_lines_and_level_witness :
  exists g', lock_piece alternating_shuffle well_state = Some g'
    /\ 0 <= 4 <= 4
    /\ lines g' = lines well_state + 4
    /\ level g' = 1 + lines g' / 10
    /\ (level well_state = 1 + lines well_state / 10 -> level well_state <= level g').
Proof.
  apply (lock_lines_and_level alternating_shuffle alternating_shuffle_perm
           well_state (fst (fst (lock_and_clear well_state))) 4
           [18%nat; 19%nat; 20%nat; 21%nat]).
  - discriminate.
  - unfold valid_rot. simpl. lia.
  - vm_compute. reflexivity.
  - vm_compute. reflexivity.
Defined.

Lemma lock_piece_keeps_board_witness :
  exists g', lock_piece alternating_shuffle grounded_T = Some g'
    /\ wf_board (board g') /\ no_full_rows (board g').
Proof.
  apply (lock_piece_keeps_board alternating_shuffle alternating_shuffle_perm grounded_T).
  - discriminate.
  - unfold valid_rot. simpl. lia.
  - apply new_Board_wf.
Defined.

(** ** The frame update *)




(** Without a piece on the ground, or without a timer, one frame never
    locks: it clears the timer of a piece in the air. *)
Lemma tick_lock_airborne (sh : nat -> list Kind) (g : Game) (dt : Q) :
  on_ground g = false -> tick_lock sh g dt = Some (with_lock_timer g None).
Proof. intros H. unfold tick_lock. rewrite H. reflexivity. Qed.

Section FrameFacts.
Variable shuffle_of : nat -> list Kind.
Hypothesis shuffle_perm : forall n, Permutation all_kinds (shuffle_of n).


End FrameFacts.


(** ** The bound on resets and the frame that follows *)

Section ResetBound.
Variable shuffle_of : nat -> list Kind.
Hypothesis shuffle_perm : forall n, Permutation all_kinds (shuffle_of n).

End ResetBound.


